(** * openforcefield/utils/utils.py: utility subroutines

    A shallow embedding of the six utilities of [openforcefield.utils.utils]
    and of the parts of their environment they rely on (numpy's ndarray and
    dtype, the process working directory and the file system, Python's class
    objects), followed by the properties established about them.

    Python integers are [Z], byte strings are [list byte], text is [string].
    A call that can raise returns a [result]; code that acts on the process
    or on the heap is a function of the state that also returns the new
    state. *)

From Stdlib Require Import ZArith List Lia.
From Stdlib.Strings Require Import Byte Ascii.
From stdpp Require Import base option list strings gmap relations sorting.

Open Scope Z_scope.

(** ** Python exceptions and results *)

(** The exceptions the modelled code paths can raise.  [ValueError] carries its
    message; the numpy and OS errors carry what identifies them. *)
Inductive exception :=
| ValueError (msg : string)
| FileNotFoundError
| NotADirectoryError
| FileExistsError
| TypeError
| OtherError (name : string).

Inductive result (A : Type) :=
| Ok (a : A)
| Raise (e : exception).
Arguments Ok {A} a.
Arguments Raise {A} e.

Definition result_bind {A B} (r : result A) (k : A → result B) : result B :=
  match r with
  | Ok a => k a
  | Raise e => Raise e
  end.

Notation "x ←! r ; k" := (result_bind r (λ x, k))
  (at level 20, r at level 100, k at level 200, right associativity,
   format "x  ←!  r ;  '/' k").

(** ** numpy: byte order, dtypes and arrays *)

(** [sys.byteorder] of the platform, and the resolved byte order of a dtype
    (numpy's ['<'] and ['>']; ['='] is the platform's). *)
Inductive byteorder := LittleEndian | BigEndian.

#[global] Instance byteorder_eq_dec : EqDecision byteorder.
Proof. solve_decision. Defined.

(** The argument of [newbyteorder]: ['S'] swap, ['<'], ['>'], ['='] native,
    ['|'] ignore. *)
Inductive order_code := CodeSwap | CodeLittle | CodeBig | CodeNative | CodeIgnore.

Definition swap_order (o : byteorder) : byteorder :=
  match o with LittleEndian => BigEndian | BigEndian => LittleEndian end.

Definition resolve_order (native : byteorder) (code : order_code)
    (old : byteorder) : byteorder :=
  match code with
  | CodeSwap => swap_order old
  | CodeLittle => LittleEndian
  | CodeBig => BigEndian
  | CodeNative => native
  | CodeIgnore => old
  end.

Inductive dtype_kind := KFloat | KInt.

#[global] Instance dtype_kind_eq_dec : EqDecision dtype_kind.
Proof. solve_decision. Defined.

(** A numpy dtype: kind, item size in bytes, byte order. *)
Record dtype := mk_dtype {
  dt_kind : dtype_kind;
  dt_itemsize : nat;
  dt_order : byteorder
}.

#[global] Instance dtype_eq_dec : EqDecision dtype.
Proof. solve_decision. Defined.

(** [np.dtype('float')]: the platform's C double, in native byte order. *)
Definition np_dtype_float (native : byteorder) : dtype :=
  mk_dtype KFloat 8 native.

(** [dtype.newbyteorder(code)]: dtypes are immutable, the call RETURNS a new
    dtype and leaves its receiver as it was. *)
Definition dtype_newbyteorder (native : byteorder) (code : order_code)
    (dt : dtype) : dtype :=
  mk_dtype (dt_kind dt) (dt_itemsize dt)
           (resolve_order native code (dt_order dt)).

(** *** Items as bit patterns *)

Definition Z_of_byte (b : byte) : Z := Z.of_N (Byte.to_N b).

Definition byte_of_Z (z : Z) : byte :=
  default x00 (Byte.of_N (Z.to_N (z mod 256))).

(** The [n] low-order bytes of [v], least significant first. *)
Fixpoint le_encode (n : nat) (v : Z) : list byte :=
  match n with
  | O => []
  | S n' => byte_of_Z v :: le_encode n' (v / 256)
  end.

Fixpoint le_decode (bs : list byte) : Z :=
  match bs with
  | [] => 0
  | b :: rest => Z_of_byte b + 256 * le_decode rest
  end.

(** The memory image of an item of [n] bytes whose bit pattern is [v], and the
    bit pattern that a memory image stands for, under a byte order. *)
Definition encode_item (o : byteorder) (n : nat) (v : Z) : list byte :=
  match o with
  | LittleEndian => le_encode n v
  | BigEndian => rev (le_encode n v)
  end.

Definition decode_item (o : byteorder) (bs : list byte) : Z :=
  match o with
  | LittleEndian => le_decode bs
  | BigEndian => le_decode (rev bs)
  end.

(** *** IEEE-754 binary64 comparison on bit patterns

    An 8-byte float is its 64-bit pattern: sign (bit 63), exponent (bits
    62..52), fraction (bits 51..0).  Python's and numpy's [==] is the IEEE
    comparison: a NaN equals nothing, [+0.0 == -0.0], and otherwise two
    floats are equal when their patterns are. *)
Definition float_exponent (x : Z) : Z := Z.land (Z.shiftr x 52) 2047.
Definition float_fraction (x : Z) : Z := Z.land x (2 ^ 52 - 1).

Definition float_is_nan (x : Z) : bool :=
  (float_exponent x =? 2047) && negb (float_fraction x =? 0).

Definition float_is_zero (x : Z) : bool := Z.land x (2 ^ 63 - 1) =? 0.

Definition float_eqb (x y : Z) : bool :=
  negb (float_is_nan x) && negb (float_is_nan y)
  && ((x =? y) || (float_is_zero x && float_is_zero y)).

(** *** ndarray *)

(** An ndarray: its shape, its dtype and the memory images of its items laid
    end to end in row-major (C) order, which is the order [tobytes] and
    [frombuffer] use.  Strides are not modelled: [nd_data] is the logical
    item sequence.  Dimensions are Python integers; numpy's bound on them
    (a machine word) is not modelled. *)
Record ndarray := mk_ndarray {
  nd_shape : list Z;
  nd_dtype : dtype;
  nd_data : list byte
}.

Definition shape_product (shape : list Z) : Z := fold_right Z.mul 1 shape.

(** [a.size] *)
Definition nd_size (a : ndarray) : Z := shape_product (nd_shape a).

(** numpy 1.x: [NPY_MAXDIMS] *)
Definition NPY_MAXDIMS : nat := 32.

(** The invariant of every ndarray: non-negative dimensions, at most
    [NPY_MAXDIMS] of them, and [size * itemsize] bytes of items. *)
Definition ndarray_wf (a : ndarray) : Prop :=
  Forall (λ d, 0 ≤ d) (nd_shape a)
  ∧ (length (nd_shape a) ≤ NPY_MAXDIMS)%nat
  ∧ Z.of_nat (length (nd_data a)) = Z.of_nat (dt_itemsize (nd_dtype a)) * nd_size a.

(** The memory image and the bit pattern of the [i]-th item in row-major
    order. *)
Definition item_bytes (a : ndarray) (i : nat) : list byte :=
  take (dt_itemsize (nd_dtype a)) (drop (i * dt_itemsize (nd_dtype a)) (nd_data a)).

Definition item (a : ndarray) (i : nat) : Z :=
  decode_item (dt_order (nd_dtype a)) (item_bytes a i).

(** [np.array(values, dtype=dt).reshape(shape)]: the array whose items are the
    given bit patterns. *)
Definition ndarray_of_items (dt : dtype) (shape : list Z) (values : list Z) : ndarray :=
  mk_ndarray shape dt
    (mjoin (map (encode_item (dt_order dt) (dt_itemsize dt)) values)).

(** [a.newbyteorder(code)]: a new array object that VIEWS the same memory with
    the byte order of the dtype changed; no byte is moved. *)
Definition ndarray_newbyteorder (native : byteorder) (code : order_code)
    (a : ndarray) : ndarray :=
  mk_ndarray (nd_shape a) (dtype_newbyteorder native code (nd_dtype a)) (nd_data a).

(** [a.tobytes()]: the raw item bytes in C order. *)
Definition tobytes (a : ndarray) : list byte := nd_data a.

(** The messages of the [ValueError]s numpy raises on these paths.  The one
    of [reshape] goes on to spell out the size and the shape. *)
Definition msg_buffer_size : string :=
  "buffer size must be a multiple of element size".
Definition msg_itemsize_zero : string :=
  "itemsize cannot be zero in type".
Definition msg_reshape : string :=
  "cannot reshape array".
Definition msg_one_unknown : string :=
  "can only specify one unknown dimension".
Definition msg_too_many_dims : string :=
  "sequence too large; cannot be greater than 32".

(** [np.frombuffer(buf, dtype=dt)]: a one-dimensional array over the buffer. *)
Definition frombuffer (buf : list byte) (dt : dtype) : result ndarray :=
  if decide (dt_itemsize dt = 0%nat) then Raise (ValueError msg_itemsize_zero)
  else if decide ((length buf mod dt_itemsize dt)%nat = 0%nat) then
    Ok (mk_ndarray [Z.of_nat (length buf / dt_itemsize dt)] dt buf)
  else Raise (ValueError msg_buffer_size).

(** The product of the dimensions that are given (not negative), and how many
    are left unknown (negative). *)
Definition known_product (shape : list Z) : Z :=
  shape_product (filter (λ d, 0 ≤ d) shape).

Definition unknown_count (shape : list Z) : nat :=
  length (filter (λ d, d < 0) shape).

(** [a.reshape(newshape)] as numpy resolves it: one negative entry is
    inferred from the size, the sizes must agree.  Dimensions are taken to
    be within the range of [npy_intp]: the overflow checks of numpy are not
    part of this definition. *)
Definition ndarray_reshape (a : ndarray) (newshape : list Z) : result ndarray :=
  if decide (NPY_MAXDIMS < length newshape)%nat then
    Raise (ValueError msg_too_many_dims)
  else
    match unknown_count newshape with
    | O =>
        if decide (shape_product newshape = nd_size a) then
          Ok (mk_ndarray newshape (nd_dtype a) (nd_data a))
        else Raise (ValueError msg_reshape)
    | S O =>
        let known := known_product newshape in
        if decide (known = 0 ∨ nd_size a mod known ≠ 0) then
          Raise (ValueError msg_reshape)
        else
          Ok (mk_ndarray
                (map (λ d, if decide (d < 0) then nd_size a / known else d) newshape)
                (nd_dtype a) (nd_data a))
    | _ => Raise (ValueError msg_one_unknown)
    end.

(** ** The array codec *)

Section codec.
(** The byte order of the platform the code runs on. *)
Variable native : byteorder.

(** [serialize_numpy] (utils.py, lines 115-118) *)
Definition serialize_numpy (np_array : ndarray) : list byte * list Z :=
  let bigendian_array := ndarray_newbyteorder native CodeBig np_array in
  let serialized := tobytes bigendian_array in
  let shape := nd_shape np_array in
  (serialized, shape).

(** [deserialize_numpy] (utils.py, lines 145-150).  The dtype returned by
    [dt.newbyteorder('>')] is bound to nothing: [dt] is still the native
    float dtype when [frombuffer] reads the buffer. *)
Definition deserialize_numpy (serialized_np : list byte) (shape : list Z)
    : result ndarray :=
  let dt := np_dtype_float native in
  let _ := dtype_newbyteorder native CodeBig dt in
  np_array ←! frombuffer serialized_np dt;
  ndarray_reshape np_array shape.
End codec.

(** Serializing and deserializing what was returned. *)
Definition roundtrip (native : byteorder) (a : ndarray) : result ndarray :=
  let '(serialized, shape) := serialize_numpy native a in
  deserialize_numpy native serialized shape.

(** [numpy.array_equal(b, a)] for float arrays: same shape, and [==] holds at
    every item. *)
Definition array_equal (b a : ndarray) : Prop :=
  nd_shape b = nd_shape a
  ∧ ∀ i : nat, (Z.of_nat i < nd_size a) → float_eqb (item b i) (item a i) = true.

(** *** Array objects on the Python heap

    For the question of what a call mutates, arrays are objects: an array
    object holds a reference to a buffer, and a view is a second object on
    the same buffer.  Byte strings and shape tuples are immutable values. *)
Definition loc := nat.

Record array_object := mk_array_object {
  ao_base : loc;
  ao_shape : list Z;
  ao_dtype : dtype
}.

Record heap := mk_heap {
  h_arrays : gmap loc array_object;
  h_buffers : gmap loc (list byte)
}.

(** The array an object denotes. *)
Definition array_at (h : heap) (l : loc) : option ndarray :=
  o ← h_arrays h !! l;
  buf ← h_buffers h !! ao_base o;
  Some (mk_ndarray (ao_shape o) (ao_dtype o) buf).

(** [a.newbyteorder(code)] on the heap: allocates the view object. *)
Definition heap_newbyteorder (native : byteorder) (code : order_code)
    (l : loc) (h : heap) : option (loc * heap) :=
  o ← h_arrays h !! l;
  let l' := fresh (dom (h_arrays h)) in
  let view := mk_array_object (ao_base o) (ao_shape o)
                (dtype_newbyteorder native code (ao_dtype o)) in
  Some (l', mk_heap (<[l' := view]> (h_arrays h)) (h_buffers h)).

(** [a.tobytes()] on the heap: reads the buffer, builds a byte string. *)
Definition heap_tobytes (l : loc) (h : heap) : option (list byte) :=
  tobytes <$> array_at h l.

(** [a.shape] on the heap. *)
Definition heap_shape (l : loc) (h : heap) : option (list Z) :=
  ao_shape <$> h_arrays h !! l.

(** [serialize_numpy] run on the heap, statement by statement. *)
Definition serialize_numpy_heap (native : byteorder) (np_array : loc) (h : heap)
    : option ((list byte * list Z) * heap) :=
  '(bigendian_array, h1) ← heap_newbyteorder native CodeBig np_array h;
  serialized ← heap_tobytes bigendian_array h1;
  shape ← heap_shape np_array h1;
  Some ((serialized, shape), h1).

(** ** The process: working directory and file system *)

(** An absolute path, as its components below the root. *)
Definition path := list string.

(** A path name as a program writes it: absolute or relative, with its
    components (which may be [.], [..] or empty). *)
Record pathname := mk_pathname {
  pn_absolute : bool;
  pn_parts : list string
}.

Inductive node := Dir | File.

#[global] Instance node_eq_dec : EqDecision node.
Proof. solve_decision. Defined.

Record os_state := mk_os_state {
  cwd : path;
  fs : gmap path node
}.

(** A computation on the process: it returns or raises, and leaves a state
    either way. *)
Definition os_action (A : Type) : Type := os_state → result A * os_state.

Definition os_ret {A} (a : A) : os_action A := λ s, (Ok a, s).

Definition os_bind {A B} (m : os_action A) (k : A → os_action B) : os_action B :=
  λ s, match m s with
       | (Ok a, s1) => k a s1
       | (Raise e, s1) => (Raise e, s1)
       end.

Notation "x ←$ m ; k" := (os_bind m (λ x, k))
  (at level 20, m at level 100, k at level 200, right associativity,
   format "x  ←$  m ;  '/' k").

(** [try: body finally: cleanup].  The cleanup runs however the body ended;
    when the cleanup itself raises, its exception is the one that
    propagates. *)
Definition try_finally {A} (body : os_action A) (cleanup : os_action unit)
    : os_action A :=
  λ s, let '(r, s1) := body s in
       match cleanup s1 with
       | (Ok _, s2) => (r, s2)
       | (Raise e, s2) => (Raise e, s2)
       end.

(** The error of resolving a path that does not lead to a directory, as the
    operating system reports it.  The components are followed from the
    root, and the first one that is not a directory decides: [ENOTDIR]
    ([NotADirectoryError]) when a regular file stands there, [ENOENT]
    ([FileNotFoundError]) when nothing does. *)
Fixpoint path_error (tree : gmap path node) (seen : path) (rest : list string)
    : exception :=
  match tree !! seen with
  | Some File => NotADirectoryError
  | None => FileNotFoundError
  | Some Dir =>
      match rest with
      | [] => FileNotFoundError
      | c :: rest' => path_error tree (seen ++ [c]) rest'
      end
  end.

(** [os.getcwd()]: fails when the working directory has been removed. *)
Definition getcwd : os_action path :=
  λ s, match fs s !! cwd s with
       | Some Dir => (Ok (cwd s), s)
       | _ => (Raise FileNotFoundError, s)
       end.

(** [os.chdir(p)] *)
Definition chdir (p : path) : os_action unit :=
  λ s, match fs s !! p with
       | Some Dir => (Ok (), mk_os_state p (fs s))
       | _ => (Raise (path_error (fs s) [] p), s)
       end.

(** [os.path.normpath] on components: empty and [.] components vanish, [..]
    drops the component before it (and vanishes at the root). *)
Fixpoint normpath_go (seen : list string) (parts : list string) : path :=
  match parts with
  | [] => rev seen
  | c :: rest =>
      if decide (c = "" ∨ c = ".") then normpath_go seen rest
      else if decide (c = "..") then normpath_go (tail seen) rest
      else normpath_go (c :: seen) rest
  end.

Definition normpath (parts : list string) : path := normpath_go [] parts.

(** [os.path.abspath(p)]: a relative name is joined to [os.getcwd()]. *)
Definition abspath (p : pathname) : os_action path :=
  if pn_absolute p then os_ret (normpath (pn_parts p))
  else
    here ←$ getcwd;
    os_ret (normpath (here ++ pn_parts p)).

(** [os.path.exists] of an absolute path. *)
Definition path_exists (p : path) (s : os_state) : bool :=
  bool_decide (is_Some (fs s !! p)).

(** [tempfile.mkdtemp()]: a new directory under the temporary root, named by
    the first candidate name that is free.  The candidates stand for the
    random names the library draws. *)
Definition mkdtemp (tmproot : path) (candidates : list string) : os_action path :=
  λ s, match fs s !! tmproot with
       | Some Dir =>
           match list_find (λ n, fs s !! (tmproot ++ [n]) = None) candidates with
           | Some (_, n) =>
               (Ok (tmproot ++ [n]),
                mk_os_state (cwd s) (<[tmproot ++ [n] := Dir]> (fs s)))
           | None => (Raise FileExistsError, s)
           end
       | Some File => (Raise NotADirectoryError, s)
       | None => (Raise FileNotFoundError, s)
       end.

(** [shutil.rmtree(p)]: removes the directory [p] and everything below it;
    raises, with the error of resolving [p], when [p] is not a directory.
    Permissions and symbolic links are not modelled. *)
Definition rmtree (p : path) : os_action unit :=
  λ s, match fs s !! p with
       | Some Dir =>
           (Ok (), mk_os_state (cwd s)
                     (filter (λ kv, ¬ (p `prefix_of` kv.1)) (fs s)))
       | _ => (Raise (path_error (fs s) [] p), s)
       end.

(** ** The scoped-resource helpers *)

(** [with temporary_cd(dir_path): body] (utils.py, lines 47-53).  The
    generator runs to its [yield], the body of the [with] runs, and the
    generator is resumed (or thrown into) so that its [finally] runs. *)
Definition temporary_cd (dir_path : pathname) (body : os_action unit)
    : os_action unit :=
  prev_dir ←$ getcwd;
  target ←$ abspath dir_path;
  _ ←$ chdir target;
  try_finally body (chdir prev_dir).

(** [with temporary_directory() as tmp_dir: body tmp_dir] (utils.py, lines
    59-65). *)
Definition temporary_directory (tmproot : path) (candidates : list string)
    (body : path → os_action unit) : os_action unit :=
  tmp_dir ←$ mkdtemp tmproot candidates;
  try_finally (body tmp_dir) (rmtree tmp_dir).

(** ** Packaged data files *)

(** A path name given as text, split at its slashes. *)
Fixpoint split_slash (cur : string) (s : string) : list string :=
  match s with
  | EmptyString => [cur]
  | String c rest =>
      if decide (c = "/"%char) then cur :: split_slash "" rest
      else split_slash (cur +:+ String c "") rest
  end.

Definition parse_pathname (s : string) : pathname :=
  mk_pathname (String.prefix "/" s) (split_slash "" s).

(** The file system's own resolution of a name, component by component:
    every step starts from an existing directory. *)
Fixpoint walk (tree : gmap path node) (cur : path) (parts : list string)
    : option path :=
  match parts with
  | [] => Some cur
  | c :: rest =>
      match tree !! cur with
      | Some Dir =>
          if decide (c = "" ∨ c = ".") then walk tree cur rest
          else if decide (c = "..") then walk tree (removelast cur) rest
          else walk tree (cur ++ [c]) rest
      | _ => None
      end
  end.

(** [os.path.exists(name)] *)
Definition os_path_exists (name : string) (s : os_state) : bool :=
  let p := parse_pathname name in
  match walk (fs s) (if pn_absolute p then [] else cwd s) (pn_parts p) with
  | Some q => path_exists q s
  | None => false
  end.

Fixpoint ends_with_slash (s : string) : bool :=
  match s with
  | EmptyString => false
  | String c EmptyString => bool_decide (c = "/"%char)
  | String _ rest => ends_with_slash rest
  end.

(** [os.path.join(a, b)] (posixpath) *)
Definition posix_join (a b : string) : string :=
  if String.prefix "/" b then b
  else if bool_decide (a = "") || ends_with_slash a then a +:+ b
  else a +:+ "/" +:+ b.

Section data_files.
(** [pkg_resources.resource_filename(package, resource_name)]: where the
    installation put a package's resource. *)
Variable resource_filename : string → string → string.

(** [get_data_filename] (utils.py, lines 78-85) *)
Definition get_data_filename (relative_path : string) (s : os_state)
    : result string :=
  let fn := resource_filename "openforcefield" (posix_join "data" relative_path) in
  if negb (os_path_exists fn s) then
    Raise (ValueError
             ("Sorry! " +:+ fn +:+
              " does not exist. If you just added it, you'll have to re-install"))
  else Ok fn.
End data_files.

(** [needle in text] *)
Definition contains (needle text : string) : Prop :=
  ∃ before after : string, text = before +:+ needle +:+ after.

(** ** Classes *)

(** A class is named by its identifier. *)
Definition cid := string.

(** *** The subclass registry *)

(** The immediate subclasses the interpreter has registered for a class, in
    the order they were defined. *)
Definition subclasses (registry : gmap cid (list cid)) (cls : cid) : list cid :=
  default [] (registry !! cls).

(** The call [cls.__subclasses__()].  On [type] and on every other metaclass
    (the subclasses of [type]) the name resolves to the method of [type]
    itself, unbound, and calling it without an argument raises [TypeError];
    on any other class the call returns the registered subclasses. *)
Definition call_subclasses (registry : gmap cid (list cid))
    (metaclasses : gset cid) (cls : cid) : result (list cid) :=
  if decide (cls ∈ metaclasses) then Raise TypeError
  else Ok (subclasses registry cls).

(** The results of the recursive calls of a comprehension, in order: the
    first call that raises (or does not finish) ends the loop. *)
Fixpoint gather (results : list (option (result (list cid))))
    : option (result (list cid)) :=
  match results with
  | [] => Some (Ok [])
  | None :: _ => None
  | Some (Raise e) :: _ => Some (Raise e)
  | Some (Ok k) :: rest =>
      match gather rest with
      | Some (Ok ks) => Some (Ok (k ++ ks))
      | other => other
      end
  end.

(** [all_subclasses] (utils.py, line 29).  Python recurses as deep as the
    hierarchy is; [fuel] bounds that depth, and [None] is a recursion that
    did not finish within it. *)
Fixpoint all_subclasses (fuel : nat) (registry : gmap cid (list cid))
    (metaclasses : gset cid) (cls : cid) : option (result (list cid)) :=
  match fuel with
  | O => None
  | S fuel' =>
      match call_subclasses registry metaclasses cls with
      | Raise e => Some (Raise e)
      | Ok direct =>
          match gather (map (all_subclasses fuel' registry metaclasses) direct) with
          | Some (Ok below) => Some (Ok (direct ++ below))
          | other => other
          end
      end
  end.

(** [s] is an immediate subclass of [c]; its transitive closure is "direct or
    indirect subclass". *)
Definition direct_subclass (registry : gmap cid (list cid)) (c s : cid) : Prop :=
  s ∈ subclasses registry c.

Definition subclass_of (registry : gmap cid (list cid)) (c s : cid) : Prop :=
  tc (direct_subclass registry) c s.

(** Single inheritance: the registry lists a subclass once, and no class is an
    immediate subclass of two classes. *)
Definition single_inheritance (registry : gmap cid (list cid)) : Prop :=
  (∀ c, NoDup (subclasses registry c))
  ∧ ∀ c1 c2 s, direct_subclass registry c1 s → direct_subclass registry c2 s → c1 = c2.

(** *** Class attributes and docstrings *)

(** What a name is bound to, as far as it matters here: whether it is a
    Python function, and what its [__doc__] is.
    - [Function f]: the function object [f], whose [__doc__] is mutable and
      lives on the heap;
    - [Method f]: a method object made from the function [f] (a
      [classmethod], a function of the metaclass bound to the class): not a
      function for [isfunction], its [__doc__] is the one of [f];
    - [Data doc]: any other object, with its [__doc__];
    - [Descriptor self_doc value_doc]: a data descriptor (a [property], a
      slot of [type] such as [__name__]), with its own [__doc__] and the
      [__doc__] of the value it yields. *)
Inductive attr :=
| Function (f : loc)
| Method (f : loc)
| Data (doc : option string)
| Descriptor (self_doc value_doc : option string).

(** A class: its dictionary, its [__mro__] (the class itself first) and its
    metaclass ([type(cls)]). *)
Record pyclass := mk_pyclass {
  cls_dict : gmap string attr;
  cls_mro : list cid;
  cls_meta : cid
}.

(** The first of a list of lookups that finds something. *)
Fixpoint first_some {A} (l : list (option A)) : option A :=
  match l with
  | [] => None
  | Some a :: _ => Some a
  | None :: rest => first_some rest
  end.

Definition own_attr (classes : gmap cid pyclass) (name : string) (c : cid)
    : option attr :=
  k ← classes !! c; cls_dict k !! name.

(** The binding of a name in the first class of the [__mro__] of [c] that has
    one. *)
Definition mro_lookup (classes : gmap cid pyclass) (name : string) (c : cid)
    : option attr :=
  k ← classes !! c;
  first_some (map (own_attr classes name) (cls_mro k)).

(** What a binding found along the [__mro__] of the class itself gives
    (Python 3: a function is returned as it is, a descriptor is returned
    itself), and what a binding found on the metaclass gives (a function is
    bound to the class, a descriptor yields its value). *)
Definition via_class (a : attr) : attr :=
  match a with
  | Descriptor self_doc _ => Data self_doc
  | other => other
  end.

Definition via_metaclass (a : attr) : attr :=
  match a with
  | Function f => Method f
  | Descriptor _ value_doc => Data value_doc
  | other => other
  end.

(** [getattr(c, name)] on a class ([type.__getattribute__]): a data
    descriptor of the metaclass comes first, then the bindings along
    [c.__mro__], then the other attributes of the metaclass. *)
Definition class_getattr (classes : gmap cid pyclass) (c : cid) (name : string)
    : option attr :=
  k ← classes !! c;
  match mro_lookup classes name (cls_meta k) with
  | Some (Descriptor self_doc value_doc) => Some (Data value_doc)
  | meta =>
      match first_some (map (own_attr classes name) (cls_mro k)) with
      | Some a => Some (via_class a)
      | None => via_metaclass <$> meta
      end
  end.

(** [hasattr(c, name)] *)
Definition class_hasattr (classes : gmap cid pyclass) (c : cid) (name : string)
    : bool :=
  bool_decide (is_Some (class_getattr classes c name)).

Definition string_le (a b : string) : Prop := String.leb a b = true.

#[global] Instance string_le_dec (a b : string) : Decision (string_le a b).
Proof. unfold string_le. apply _. Defined.

(** [dir(c)]: the names bound along the MRO, sorted. *)
Definition class_dir (classes : gmap cid pyclass) (c : cid) : list string :=
  match classes !! c with
  | None => []
  | Some k =>
      merge_sort string_le
        (elements (⋃ (map (λ p, match classes !! p with
                               | Some kp => dom (cls_dict kp)
                               | None => ∅
                               end) (cls_mro k)) : gset string))
  end.

(** [inspect.getmembers(c, isfunction)] *)
Definition getmembers_isfunction (classes : gmap cid pyclass) (c : cid)
    : list (string * loc) :=
  omap (λ name, match class_getattr classes c name with
                | Some (Function f) => Some (name, f)
                | _ => None
                end) (class_dir classes c).

(** [f.__doc__] of a function object, and of any attribute value. *)
Definition func_doc (docs : gmap loc (option string)) (f : loc) : option string :=
  default None (docs !! f).

Definition attr_doc (docs : gmap loc (option string)) (v : attr) : option string :=
  match v with
  | Function f | Method f => func_doc docs f
  | Data d => d
  | Descriptor self_doc _ => self_doc
  end.

(** Python truth of a docstring: [None] and the empty string are false. *)
Definition doc_truthy (d : option string) : bool :=
  match d with
  | None => false
  | Some s => negb (bool_decide (s = ""))
  end.

(** The inner loop (utils.py, lines 22-24): every parent that has the
    attribute assigns its docstring, one after the other. *)
Definition inherit_from_parents (classes : gmap cid pyclass) (name : string)
    (func : loc) (parents : list cid) (docs : gmap loc (option string))
    : gmap loc (option string) :=
  fold_left (λ docs parent,
               if class_hasattr classes parent name then
                 match class_getattr classes parent name with
                 | Some v => <[func := attr_doc docs v]> docs
                 | None => docs
                 end
               else docs)
            parents docs.

(** [inherit_docstrings] (utils.py, lines 20-25): the docstrings of the
    function objects after the call.  The class itself is returned as it
    is. *)
Definition inherit_docstrings (classes : gmap cid pyclass) (cls : cid)
    (docs : gmap loc (option string)) : gmap loc (option string) :=
  fold_left (λ docs '(name, func),
               if doc_truthy (func_doc docs func) then docs
               else inherit_from_parents classes name func
                      (tail (default [] (cls_mro <$> classes !! cls))) docs)
            (getmembers_isfunction classes cls) docs.

(** The rule in the words of the specification: the docstring of the first
    ancestor, in method-resolution order, that has an attribute of the same
    name. *)
Definition spec_first_ancestor_doc (classes : gmap cid pyclass) (cls : cid)
    (name : string) (docs : gmap loc (option string)) : option (option string) :=
  attr_doc docs <$>
    first_some (map (λ parent, class_getattr classes parent name)
                    (tail (default [] (cls_mro <$> classes !! cls)))).

(** ** Concrete inputs *)

(** The bit patterns of [1.0], [2.0], [3.0], [4.0] and of numpy's [nan]. *)
Definition float_one : Z := 0x3FF0000000000000.
Definition float_two : Z := 0x4000000000000000.
Definition float_three : Z := 0x4008000000000000.
Definition float_four : Z := 0x4010000000000000.
Definition float_nan : Z := 0x7FF8000000000000.

(** [np.array([[1.0, 2.0], [3.0, 4.0]])] on a little-endian platform. *)
Definition array_2x2 : ndarray :=
  ndarray_of_items (np_dtype_float LittleEndian) [2; 2]
    [float_one; float_two; float_three; float_four].

(** [np.array([np.nan])] on a little-endian platform. *)
Definition nan_array : ndarray :=
  ndarray_of_items (np_dtype_float LittleEndian) [1] [float_nan].

(** [np.array([1.0])] on a little-endian platform, and the same value held
    as [np.array([1.0], dtype='>f8')]. *)
Definition one_array : ndarray :=
  ndarray_of_items (np_dtype_float LittleEndian) [1] [float_one].

Definition one_array_be : ndarray :=
  ndarray_of_items (mk_dtype KFloat 8 BigEndian) [1] [float_one].

(** [np.array([1.0, 2.0])] on a little-endian platform. *)
Definition two_array : ndarray :=
  ndarray_of_items (np_dtype_float LittleEndian) [2] [float_one; float_two].

(** A heap with [np.array([[1.0, 2.0], [3.0, 4.0]])] at location 0 on buffer
    7. *)
Definition heap_2x2 : heap :=
  mk_heap {[ 0%nat := mk_array_object 7%nat [2; 2] (np_dtype_float LittleEndian) ]}
          {[ 7%nat := nd_data array_2x2 ]}.

(** A process in [/home] on a file system with [/], [/home] and [/tmp]. *)
Definition os_home : os_state :=
  mk_os_state ["home"] {[ [] := Dir; ["home"] := Dir; ["tmp"] := Dir ]}.

(** Bodies of a [with] block: one that does nothing, one that raises, one
    that removes [/home] ([os.rmdir('/home')]). *)
Definition body_pass : os_action unit := λ s, (Ok (), s).

Definition body_raise : os_action unit :=
  λ s, (Raise (OtherError "RuntimeError"), s).

Definition body_rmdir_home : os_action unit :=
  λ s, (Ok (), mk_os_state (cwd s) (delete ["home"] (fs s))).

(** Bodies given the temporary directory: one that writes a file in it, one
    that removes it and creates a regular file of the same name
    ([os.rmdir(tmp_dir); open(tmp_dir, 'w').close()]). *)
Definition body_write_file (tmp_dir : path) : os_action unit :=
  λ s, (Ok (), mk_os_state (cwd s) (<[tmp_dir ++ ["out.txt"] := File]> (fs s))).

Definition body_replace_by_file (tmp_dir : path) : os_action unit :=
  λ s, (Ok (), mk_os_state (cwd s) (<[tmp_dir := File]> (fs s))).

(** An installation that keeps the resources of a package under
    [/site-packages/<package>/]. *)
Definition site_packages (package resource_name : string) : string :=
  "/site-packages/" +:+ package +:+ "/" +:+ resource_name.

Definition os_installed : os_state :=
  mk_os_state []
    {[ [] := Dir;
       ["site-packages"] := Dir;
       ["site-packages"; "openforcefield"] := Dir;
       ["site-packages"; "openforcefield"; "data"] := Dir;
       ["site-packages"; "openforcefield"; "data"; "water.pdb"] := File ]}.

(** [class A], [class B(A)], [class C(A)], [class D(B, C)]: the registry of
    immediate subclasses; and the height of each class above the leaves,
    which serves for the two hierarchies. *)
Definition diamond : gmap cid (list cid) :=
  {[ "A" := ["B"; "C"]; "B" := ["D"]; "C" := ["D"] ]}.

(** [class A], [class B(A)], [class C(A)], [class D(B)]: single inheritance. *)
Definition tree : gmap cid (list cid) :=
  {[ "A" := ["B"; "C"]; "B" := ["D"] ]}.

Definition diamond_height (c : cid) : nat :=
  if decide (c = "A") then 2
  else if decide (c = "B" ∨ c = "C") then 1
  else 0.

(** The builtin classes [type] and [object], with a few of their
    attributes; a docstring of several lines is cut after the first. *)
Definition type_class : pyclass :=
  mk_pyclass
    {[ "__call__" := Data (Some "Call self as a function.");
       "mro" := Data (Some "Return a type's method resolution order.");
       "__subclasses__" := Data (Some "Return a list of immediate subclasses.");
       "__name__" := Descriptor None (Some "str(object='') -> str") ]}
    ["type"; "object"] "type".

Definition object_class : pyclass :=
  mk_pyclass {[ "__hash__" := Data (Some "Return hash(self).") ]} ["object"] "type".

(** [[
    class A:
        def foo(self): "A.foo"
    class B(A):
        def foo(self): "B.foo"
    class C(B):
        def foo(self): pass
    ]]
    The function objects are at locations 1, 2 and 3. *)
Definition chain_classes : gmap cid pyclass :=
  {[ "type" := type_class;
     "object" := object_class;
     "A" := mk_pyclass {[ "foo" := Function 1%nat ]} ["A"; "object"] "type";
     "B" := mk_pyclass {[ "foo" := Function 2%nat ]} ["B"; "A"; "object"] "type";
     "C" := mk_pyclass {[ "foo" := Function 3%nat ]} ["C"; "B"; "A"; "object"] "type" ]}.

Definition chain_docs : gmap loc (option string) :=
  {[ 1%nat := Some "A.foo"; 2%nat := Some "B.foo"; 3%nat := None ]}.

(** ** Further notions and inputs *)

(** [np.array([1, 2], dtype='int64')] and [np.array([1.0, 2.0],
    dtype='float32')] on a little-endian platform. *)
Definition int64_array : ndarray :=
  ndarray_of_items (mk_dtype KInt 8 LittleEndian) [2] [1; 2].

Definition float32_array : ndarray :=
  ndarray_of_items (mk_dtype KFloat 4 LittleEndian) [2] [0x3F800000; 0x40000000].

(** The largest [npy_intp] of a 64-bit platform, and the limit numpy puts
    on the dimensions of every array it makes: the item size times the
    dimensions that are not zero must not exceed it, or making the array
    raises [ValueError].  Every array that exists meets the limit for its
    own item size; [ndarray_reshape] does not check it, so a statement that
    views a buffer with another item size or under a shape from outside
    carries it as a hypothesis. *)
Definition NPY_MAX_INTP : Z := 2 ^ 63 - 1.

Definition shape_fits (itemsize : nat) (shape : list Z) : Prop :=
  Z.of_nat itemsize * shape_product (filter (λ d, d ≠ 0) shape) ≤ NPY_MAX_INTP.

(** A file system in which every entry lies in a directory that exists. *)
Definition fs_tree (tree : gmap path node) : Prop :=
  ∀ (q : path) (n : string), is_Some (tree !! (q ++ [n])) → tree !! q = Some Dir.

(** A path component that [normpath] keeps as it is. *)
Definition plain_component (c : string) : Prop := c ≠ "" ∧ c ≠ "." ∧ c ≠ "..".

(** The absolute path name that spells a path: what a body passes on when it
    hands the yielded directory to [temporary_cd]. *)
Definition pathname_of (p : path) : pathname := mk_pathname true p.

(** A body that writes two files into the directory it is given and
    raises. *)
Definition body_write_and_raise (tmp_dir : path) : os_action unit :=
  λ s, (Raise (OtherError "RuntimeError"),
        mk_os_state (cwd s)
          (<[tmp_dir ++ ["a.txt"] := File]> (<[tmp_dir ++ ["b.txt"] := File]> (fs s)))).

(** A body that removes the directory it is given ([os.rmdir(tmp_dir)]). *)
Definition body_rmdir (tmp_dir : path) : os_action unit :=
  λ s, (Ok (), mk_os_state (cwd s) (delete tmp_dir (fs s))).

(** One turn of the outer loop of [inherit_docstrings] (utils.py, lines
    21-24), for the member [(name, func)] of the class [cls]. *)
Definition inherit_member (classes : gmap cid pyclass) (cls : cid)
    (docs : gmap loc (option string)) (member : string * loc)
    : gmap loc (option string) :=
  let '(name, func) := member in
  if doc_truthy (func_doc docs func) then docs
  else inherit_from_parents classes name func
         (tail (default [] (cls_mro <$> classes !! cls))) docs.

(** [[
    class Base:
        def run(self): "Run it."
        def stop(self): pass
    class Impl(Base):
        def run(self): pass
        def extra(self): pass
    ]]
    The function objects are at locations 1 to 4. *)
Definition impl_classes : gmap cid pyclass :=
  {[ "type" := type_class;
     "object" := object_class;
     "Base" := mk_pyclass {[ "run" := Function 1%nat; "stop" := Function 2%nat ]}
                 ["Base"; "object"] "type";
     "Impl" := mk_pyclass {[ "run" := Function 3%nat; "extra" := Function 4%nat ]}
                 ["Impl"; "Base"; "object"] "type" ]}.

Definition impl_docs : gmap loc (option string) :=
  {[ 1%nat := Some "Run it."; 2%nat := None; 3%nat := None; 4%nat := None ]}.

(** Where resolving the path [p] stops: [q] is the first prefix of [p],
    from the root, that is not a directory. *)
Definition first_obstacle (tree : gmap path node) (p q : path) : Prop :=
  q `prefix_of` p
  ∧ tree !! q ≠ Some Dir
  ∧ ∀ q', q' `prefix_of` q → q' ≠ q → tree !! q' = Some Dir.

(** The error the operating system reports at an obstacle. *)
Definition obstacle_error (tree : gmap path node) (q : path) : exception :=
  match tree !! q with
  | Some File => NotADirectoryError
  | _ => FileNotFoundError
  end.

(** A process in [/home/user], and a body that replaces [/home] by a regular
    file and raises
    ([shutil.rmtree('/home'); open('/home', 'w').close(); raise RuntimeError]). *)
Definition os_user : os_state :=
  mk_os_state ["home"; "user"]
    {[ [] := Dir; ["home"] := Dir; ["home"; "user"] := Dir; ["tmp"] := Dir ]}.

Definition body_replace_home : os_action unit :=
  λ s, (Raise (OtherError "RuntimeError"),
        mk_os_state (cwd s) (<[["home"] := File]> (delete ["home"; "user"] (fs s)))).

(** A body that replaces the temporary root [/tmp], with the directory it is
    given, by a regular file. *)
Definition body_replace_tmproot (tmp_dir : path) : os_action unit :=
  λ s, (Ok (), mk_os_state (cwd s) (<[["tmp"] := File]> (delete tmp_dir (fs s)))).

(** [[
    class Greeter:
        def __call__(self): "Greet."
    class Loud(Greeter):
        def __call__(self): pass
    ]]
    The function objects are at locations 1 and 2. *)
Definition call_classes : gmap cid pyclass :=
  {[ "type" := type_class;
     "object" := object_class;
     "Greeter" := mk_pyclass {[ "__call__" := Function 1%nat ]}
                    ["Greeter"; "object"] "type";
     "Loud" := mk_pyclass {[ "__call__" := Function 2%nat ]}
                 ["Loud"; "Greeter"; "object"] "type" ]}.

Definition call_docs : gmap loc (option string) :=
  {[ 1%nat := Some "Greet."; 2%nat := None ]}.

(** A subclass is listed more than once: it stands at two positions. *)
Definition listed_twice (x : cid) (l : list cid) : Prop :=
  ∃ i j : nat, i ≠ j ∧ l !! i = Some x ∧ l !! j = Some x.

(** The builtin hierarchy with the diamond below it: [type] and [A] are
    immediate subclasses of [object], [ABCMeta] is one of [type]; the
    metaclasses are [type] and [ABCMeta]. *)
Definition python_registry : gmap cid (list cid) :=
  {[ "object" := ["type"; "A"]; "type" := ["ABCMeta"];
     "A" := ["B"; "C"]; "B" := ["D"]; "C" := ["D"] ]}.

Definition python_metaclasses : gset cid := {[ "type"; "ABCMeta" ]}.

Definition python_height (c : cid) : nat :=
  if decide (c = "object") then 3
  else if decide (c = "type") then 1
  else diamond_height c.

(** * Properties *)

(** ** Bytes and items *)

Lemma Z_of_byte_range (b : byte) : 0 ≤ Z_of_byte b < 256.
Proof.
  unfold Z_of_byte. pose proof (Byte.to_N_bounded b). lia.
Qed.

Lemma Z_of_byte_of_Z (z : Z) : Z_of_byte (byte_of_Z z) = z mod 256.
Proof.
  unfold byte_of_Z, Z_of_byte.
  assert (Hr : 0 ≤ z mod 256 < 256) by (apply Z.mod_pos_bound; lia).
  destruct (Byte.of_N (Z.to_N (z mod 256))) as [b|] eqn:E.
  - apply Byte.to_of_N in E. simpl. rewrite E. lia.
  - apply Byte.of_N_None_iff in E. lia.
Qed.

Lemma byte_of_Z_of_byte (b : byte) : byte_of_Z (Z_of_byte b) = b.
Proof.
  unfold byte_of_Z. pose proof (Z_of_byte_range b) as Hr.
  rewrite Z.mod_small by lia. unfold Z_of_byte.
  rewrite N2Z.id, Byte.of_to_N. done.
Qed.

Lemma le_encode_length (n : nat) (v : Z) : length (le_encode n v) = n.
Proof. revert v. induction n as [|n IH]; intros v; simpl; [done | by rewrite IH]. Qed.

Lemma le_decode_encode (n : nat) (v : Z) :
  0 ≤ v < 256 ^ Z.of_nat n → le_decode (le_encode n v) = v.
Proof.
  revert v. induction n as [|n IH]; intros v Hv.
  - simpl in *. lia.
  - rewrite Nat2Z.inj_succ, Z.pow_succ_r in Hv by lia.
    simpl. rewrite Z_of_byte_of_Z, IH.
    + pose proof (Z.div_mod v 256). lia.
    + split; [apply Z.div_pos; lia | apply Z.div_lt_upper_bound; lia].
Qed.

Lemma le_decode_range (bs : list byte) :
  0 ≤ le_decode bs < 256 ^ Z.of_nat (length bs).
Proof.
  induction bs as [|b bs IH].
  - simpl. lia.
  - cbn [le_decode length]. rewrite Nat2Z.inj_succ, Z.pow_succ_r by lia.
    pose proof (Z_of_byte_range b). lia.
Qed.

Lemma le_encode_decode (bs : list byte) :
  le_encode (length bs) (le_decode bs) = bs.
Proof.
  induction bs as [|b bs IH]; [done|].
  cbn [le_decode length le_encode].
  pose proof (Z_of_byte_range b) as Hb.
  f_equal.
  - rewrite <- (byte_of_Z_of_byte b) at 2. unfold byte_of_Z. 
    replace ((Z_of_byte b + 256 * le_decode bs) mod 256) with (Z_of_byte b mod 256); [done|].
    rewrite (Z.mul_comm 256), Z.mod_add by lia. done.
  - replace ((Z_of_byte b + 256 * le_decode bs) / 256) with (le_decode bs); [done|].
    rewrite (Z.mul_comm 256), Z.div_add by lia.
    rewrite Z.div_small by lia. lia.
Qed.

Lemma encode_item_length (o : byteorder) (n : nat) (v : Z) :
  length (encode_item o n v) = n.
Proof. destruct o; simpl; rewrite ?length_rev; apply le_encode_length. Qed.

Lemma decode_encode_item (o : byteorder) (n : nat) (v : Z) :
  0 ≤ v < 256 ^ Z.of_nat n → decode_item o (encode_item o n v) = v.
Proof.
  intros Hv. destruct o; simpl; rewrite ?rev_involutive; by apply le_decode_encode.
Qed.

Lemma encode_decode_item (o : byteorder) (bs : list byte) :
  encode_item o (length bs) (decode_item o bs) = bs.
Proof.
  destruct o; simpl.
  - apply le_encode_decode.
  - rewrite <- (length_rev bs), le_encode_decode. apply rev_involutive.
Qed.

(** ** ndarray: the invariant and the items *)

Lemma shape_product_nonneg (shape : list Z) :
  Forall (λ d, 0 ≤ d) shape → 0 ≤ shape_product shape.
Proof.
  induction 1 as [|d shape Hd _ IH]; simpl; [lia | by apply Z.mul_nonneg_nonneg].
Qed.

Lemma unknown_count_nonneg (shape : list Z) :
  Forall (λ d, 0 ≤ d) shape → unknown_count shape = O.
Proof.
  unfold unknown_count. induction 1 as [|d shape Hd _ IH]; [done|].
  rewrite filter_cons_False by lia. done.
Qed.

Lemma items_image_length (o : byteorder) (n : nat) (values : list Z) :
  length (mjoin (map (encode_item o n) values)) = (length values * n)%nat.
Proof.
  induction values as [|v values IH]; [done|].
  change (mjoin (map (encode_item o n) (v :: values)))
    with (encode_item o n v ++ mjoin (map (encode_item o n) values)).
  rewrite length_app, encode_item_length, IH. simpl. lia.
Qed.

Lemma ndarray_of_items_wf (dt : dtype) (shape : list Z) (values : list Z) :
  Forall (λ d, 0 ≤ d) shape →
  (length shape ≤ NPY_MAXDIMS)%nat →
  Z.of_nat (length values) = shape_product shape →
  ndarray_wf (ndarray_of_items dt shape values).
Proof.
  intros Hpos Hrank Hlen. repeat split; [done..|].
  unfold ndarray_of_items, nd_size. cbn [nd_data nd_dtype nd_shape].
  rewrite items_image_length, <- Hlen. lia.
Qed.

Lemma ndarray_newbyteorder_wf (native : byteorder) (code : order_code) (a : ndarray) :
  ndarray_wf a → ndarray_wf (ndarray_newbyteorder native code a).
Proof. intros (Hpos & Hrank & Hlen). by repeat split. Qed.

Lemma frombuffer_wf (buf : list byte) (dt : dtype) (a : ndarray) :
  frombuffer buf dt = Ok a → ndarray_wf a.
Proof.
  unfold frombuffer. repeat case_decide; intros [= <-].
  repeat split; simpl.
  - repeat constructor. lia.
  - unfold NPY_MAXDIMS. lia.
  - unfold nd_size. simpl.
    pose proof (Nat.div_mod_eq (length buf) (dt_itemsize dt)). lia.
Qed.

Lemma ndarray_reshape_view (a b : ndarray) (newshape : list Z) :
  ndarray_reshape a newshape = Ok b →
  nd_data b = nd_data a ∧ nd_dtype b = nd_dtype a.
Proof.
  unfold ndarray_reshape. case_decide; [done|].
  destruct (unknown_count newshape) as [|[|k]]; [| |done];
    case_decide; try done; by intros [= <-].
Qed.

(** Reshaping to a shape of non-negative dimensions succeeds exactly when the
    sizes agree, and then only the shape changes. *)
Lemma ndarray_reshape_nonneg (a : ndarray) (newshape : list Z) :
  Forall (λ d, 0 ≤ d) newshape →
  (length newshape ≤ NPY_MAXDIMS)%nat →
  ndarray_reshape a newshape =
    if decide (shape_product newshape = nd_size a)
    then Ok (mk_ndarray newshape (nd_dtype a) (nd_data a))
    else Raise (ValueError msg_reshape).
Proof.
  intros Hpos Hrank. unfold ndarray_reshape.
  rewrite decide_False by lia. by rewrite unknown_count_nonneg.
Qed.

Lemma ndarray_reshape_wf (a b : ndarray) (newshape : list Z) :
  Forall (λ d, 0 ≤ d) newshape →
  ndarray_wf a → ndarray_reshape a newshape = Ok b → ndarray_wf b.
Proof.
  intros Hpos (_ & _ & Hlen). unfold ndarray_reshape.
  case_decide as Hrank; [done|]. rewrite unknown_count_nonneg by done.
  case_decide as Hsize; [|done]. intros [= <-].
  repeat split; [done | simpl; lia |]. unfold nd_size. simpl. by rewrite Hsize.
Qed.

(** The memory image of item [i] of an array built from bit patterns is the
    encoding of the [i]-th pattern, and reading the item gives it back. *)
Lemma item_bytes_of_items (dt : dtype) (shape : list Z) (values : list Z)
    (i : nat) (v : Z) :
  values !! i = Some v →
  item_bytes (ndarray_of_items dt shape values) i
  = encode_item (dt_order dt) (dt_itemsize dt) v.
Proof.
  unfold item_bytes, ndarray_of_items. cbn [nd_data nd_dtype].
  revert i. induction values as [|w values IH]; intros i Hi; [done|].
  change (mjoin (map (encode_item (dt_order dt) (dt_itemsize dt)) (w :: values)))
    with (encode_item (dt_order dt) (dt_itemsize dt) w
          ++ mjoin (map (encode_item (dt_order dt) (dt_itemsize dt)) values)).
  destruct i as [|i].
  - injection Hi as ->. rewrite Nat.mul_0_l, drop_0, take_app_length'; [done|].
    symmetry. apply encode_item_length.
  - simpl in Hi. rewrite <- (IH i Hi). f_equal.
    replace (S i * dt_itemsize dt)%nat
      with (length (encode_item (dt_order dt) (dt_itemsize dt) w) + i * dt_itemsize dt)%nat
      by (rewrite encode_item_length; lia).
    by rewrite drop_app_add.
Qed.

Lemma item_of_items (dt : dtype) (shape : list Z) (values : list Z)
    (i : nat) (v : Z) :
  values !! i = Some v →
  0 ≤ v < 256 ^ Z.of_nat (dt_itemsize dt) →
  item (ndarray_of_items dt shape values) i = v.
Proof.
  intros Hi Hv. unfold item. rewrite (item_bytes_of_items _ _ _ _ _ Hi).
  by apply decode_encode_item.
Qed.

(** ** The array codec *)

Lemma float_eqb_refl (x : Z) : float_is_nan x = false → float_eqb x x = true.
Proof. intros Hx. unfold float_eqb. by rewrite Hx, Z.eqb_refl. Qed.

Lemma float_eqb_nan_l (x y : Z) : float_is_nan x = true → float_eqb x y = false.
Proof. intros Hx. unfold float_eqb. by rewrite Hx. Qed.

(** What [serialize_numpy] emits is the memory of its argument as it stands:
    the view changes how the bytes would be read, not the bytes. *)
Lemma serialize_numpy_bytes (native : byteorder) (a : ndarray) :
  serialize_numpy native a = (nd_data a, nd_shape a).
Proof. reflexivity. Qed.

(** What [deserialize_numpy] returns reads its buffer in the platform's byte
    order: it is an array of the native float dtype over the given bytes. *)
Lemma deserialize_numpy_native (native : byteorder) (serialized : list byte)
    (shape : list Z) (b : ndarray) :
  deserialize_numpy native serialized shape = Ok b →
  nd_dtype b = np_dtype_float native ∧ nd_data b = serialized.
Proof.
  unfold deserialize_numpy. cbn zeta.
  destruct (frombuffer serialized (np_dtype_float native)) as [a|e] eqn:Ha; [|done].
  simpl. intros Hb. apply ndarray_reshape_view in Hb as [-> ->].
  revert Ha. unfold frombuffer. repeat case_decide; by intros [= <-].
Qed.

(** Every item of what [deserialize_numpy] returns is its 8 bytes of the
    buffer read in the platform's byte order. *)
Lemma deserialize_numpy_item (native : byteorder) (serialized : list byte)
    (shape : list Z) (b : ndarray) (i : nat) :
  deserialize_numpy native serialized shape = Ok b →
  item b i = decode_item native (take 8 (drop (i * 8) serialized)).
Proof.
  intros Hb. apply deserialize_numpy_native in Hb as [Hdt Hdata].
  unfold item, item_bytes. by rewrite Hdt, Hdata.
Qed.

(** Every item of an array built from bit patterns is emitted by
    [serialize_numpy] in the byte order of the dtype of the array. *)
Lemma serialize_numpy_of_items (native : byteorder) (dt : dtype)
    (shape : list Z) (values : list Z) :
  serialize_numpy native (ndarray_of_items dt shape values)
  = (mjoin (map (encode_item (dt_order dt) (dt_itemsize dt)) values), shape).
Proof. reflexivity. Qed.

Lemma deserialize_numpy_wf (native : byteorder) (serialized : list byte)
    (shape : list Z) (b : ndarray) :
  Forall (λ d, 0 ≤ d) shape →
  deserialize_numpy native serialized shape = Ok b →
  ndarray_wf b.
Proof.
  intros Hpos. unfold deserialize_numpy. cbn zeta.
  destruct (frombuffer serialized (np_dtype_float native)) as [a|e] eqn:Ha; [|done].
  simpl. apply ndarray_reshape_wf; [done|]. by eapply frombuffer_wf.
Qed.

Lemma multiple_of_8 (n : nat) (k : Z) :
  Z.of_nat n = 8 * k → (n mod 8)%nat = 0%nat ∧ Z.of_nat (n / 8) = k.
Proof.
  intros Hn. split.
  - apply Nat2Z.inj. rewrite Nat2Z.inj_mod, Hn, Z.mul_comm. simpl. apply Z.mod_mul. lia.
  - rewrite Nat2Z.inj_div, Hn, Z.mul_comm. simpl. apply Z.div_mul. lia.
Qed.

Lemma frombuffer_float (native : byteorder) (buf : list byte) :
  (length buf mod 8)%nat = 0%nat →
  frombuffer buf (np_dtype_float native)
  = Ok (mk_ndarray [Z.of_nat (length buf / 8)] (np_dtype_float native) buf).
Proof.
  intros Hmod. unfold frombuffer. cbn [np_dtype_float dt_itemsize].
  rewrite decide_False by lia. by rewrite decide_True.
Qed.

(** C6: for every array [a] with 8-byte items, [serialize_numpy a] returns a
    byte string of length 8 times the product of the dimensions of [a],
    together with the shape of [a]; whatever the rank, and also when a
    dimension is zero. *)
Theorem serialize_numpy_length_and_shape (native : byteorder) (a : ndarray) :
  ndarray_wf a →
  dt_itemsize (nd_dtype a) = 8%nat →
  Z.of_nat (length (serialize_numpy native a).1) = 8 * shape_product (nd_shape a)
  ∧ (serialize_numpy native a).2 = nd_shape a.
Proof.
  intros (_ & _ & Hlen) Hsize. rewrite serialize_numpy_bytes. cbn [fst snd].
  split; [|done]. rewrite Hlen, Hsize. done.
Qed.

Lemma array_2x2_wf : ndarray_wf array_2x2.
Proof.
  apply ndarray_of_items_wf; [repeat constructor; lia | unfold NPY_MAXDIMS; simpl; lia | done].
Qed.

Lemma serialize_numpy_length_and_shape_witness :
  Z.of_nat (length (serialize_numpy LittleEndian array_2x2).1) = 8 * shape_product [2; 2]
  ∧ (serialize_numpy LittleEndian array_2x2).2 = [2; 2].
Proof.
  apply (serialize_numpy_length_and_shape LittleEndian array_2x2);
    [apply array_2x2_wf | reflexivity].
Defined.

(** The example of the specification: 32 bytes and the shape [(2, 2)]; and
    the two edge ranks: a rank-0 array has one item, an array with a zero
    dimension has none. *)
Example serialize_numpy_2x2 :
  length (serialize_numpy LittleEndian array_2x2).1 = 32%nat
  ∧ (serialize_numpy LittleEndian array_2x2).2 = [2; 2].
Proof. by vm_compute. Qed.

Example serialize_numpy_rank0 :
  serialize_numpy LittleEndian
    (ndarray_of_items (np_dtype_float LittleEndian) [] [float_one])
  = (encode_item LittleEndian 8 float_one, []).
Proof. by vm_compute. Qed.

Example serialize_numpy_zero_dimension :
  serialize_numpy LittleEndian
    (ndarray_of_items (np_dtype_float LittleEndian) [3; 0] [])
  = ([], [3; 0]).
Proof. by vm_compute. Qed.

(** The round trip gives back the very array when its dtype is the native
    float dtype. *)
Lemma roundtrip_native_id (native : byteorder) (a : ndarray) :
  ndarray_wf a →
  nd_dtype a = np_dtype_float native →
  roundtrip native a = Ok a.
Proof.
  intros (Hpos & Hrank & Hlen) Hdt. unfold roundtrip.
  rewrite serialize_numpy_bytes. unfold deserialize_numpy. cbn zeta.
  rewrite Hdt in Hlen. cbn [np_dtype_float dt_itemsize] in Hlen.
  assert (Hsz : 0 ≤ nd_size a) by by apply shape_product_nonneg.
  destruct (multiple_of_8 _ _ Hlen) as [Hmod Hdiv].
  rewrite frombuffer_float by done. cbn [result_bind].
  rewrite ndarray_reshape_nonneg by done.
  unfold nd_size at 1. cbn [nd_shape shape_product fold_right nd_dtype nd_data].
  rewrite decide_True.
  - destruct a as [shape dt data]. simpl in *. by subst dt.
  - unfold nd_size in *. cbn [nd_shape shape_product fold_right]. lia.
Qed.

(** C1, as the code has it: for every array [a] of 8-byte floats held in the
    platform's native byte order, [deserialize_numpy] applied to what
    [serialize_numpy a] returned gives an array of the shape of [a] whose
    items have exactly the bit patterns of the items of [a]; it is
    element-wise equal ([==]) to [a] at every item that is not a NaN. *)
Theorem roundtrip_native_order (native : byteorder) (a : ndarray) :
  ndarray_wf a →
  nd_dtype a = np_dtype_float native →
  ∃ b, roundtrip native a = Ok b
       ∧ nd_shape b = nd_shape a
       ∧ (∀ i : nat, item b i = item a i)
       ∧ (∀ i : nat, float_is_nan (item a i) = false →
                     float_eqb (item b i) (item a i) = true).
Proof.
  intros Hwf Hdt. exists a. split; [by apply roundtrip_native_id|].
  split; [done|]. split; [done|]. intros i Hi. by apply float_eqb_refl.
Qed.

Lemma roundtrip_native_order_witness :
  ∃ b, roundtrip LittleEndian array_2x2 = Ok b
       ∧ nd_shape b = nd_shape array_2x2
       ∧ (∀ i : nat, item b i = item array_2x2 i)
       ∧ (∀ i : nat, float_is_nan (item array_2x2 i) = false →
                     float_eqb (item b i) (item array_2x2 i) = true).
Proof.
  apply (roundtrip_native_order LittleEndian array_2x2);
    [apply array_2x2_wf | reflexivity].
Defined.

Lemma nan_array_wf : ndarray_wf nan_array.
Proof.
  apply ndarray_of_items_wf; [repeat constructor; lia | unfold NPY_MAXDIMS; simpl; lia | done].
Qed.

Lemma one_array_be_wf : ndarray_wf one_array_be.
Proof.
  apply ndarray_of_items_wf; [repeat constructor; lia | unfold NPY_MAXDIMS; simpl; lia | done].
Qed.

(** C1 as stated fails on a little-endian platform at two arrays of 8-byte
    floats.  The round trip of [np.array([np.nan])] returns the same bits,
    which [==] does not hold equal because a NaN equals nothing.  The round
    trip of [np.array([1.0], dtype='>f8')] returns the float of the reversed
    bytes, which is not [1.0]. *)
Lemma roundtrip_not_element_wise_equal :
  (ndarray_wf nan_array
   ∧ nd_dtype nan_array = mk_dtype KFloat 8 LittleEndian
   ∧ ¬ ∃ b, roundtrip LittleEndian nan_array = Ok b ∧ array_equal b nan_array)
  ∧ (ndarray_wf one_array_be
     ∧ nd_dtype one_array_be = mk_dtype KFloat 8 BigEndian
     ∧ ¬ ∃ b, roundtrip LittleEndian one_array_be = Ok b
              ∧ array_equal b one_array_be).
Proof.
  split.
  - split; [apply nan_array_wf|]. split; [done|].
    intros (b & Hb & _ & Heq).
    rewrite roundtrip_native_id in Hb by (apply nan_array_wf || done).
    injection Hb as <-.
    specialize (Heq 0%nat). vm_compute in Heq. by specialize (Heq eq_refl).
  - split; [apply one_array_be_wf|]. split; [done|].
    intros (b & Hb & _ & Heq).
    vm_compute in Hb. injection Hb as <-.
    specialize (Heq 0%nat). vm_compute in Heq. by specialize (Heq eq_refl).
Qed.

(** Outside the native byte order the round trip is not the identity: on a
    little-endian platform [np.array([1.0], dtype='>f8')] comes back with the
    bytes of every item read in reverse. *)
Example roundtrip_big_endian_array :
  ∃ b, roundtrip LittleEndian one_array_be = Ok b
       ∧ item one_array_be 0 = float_one
       ∧ item b 0 = 0xF03F.
Proof. eexists. by vm_compute. Qed.

(** C2, evaluated on a little-endian platform.  [serialize_numpy] of
    [np.array([1.0])] emits the little-endian image of [1.0], which is not its
    big-endian image; and [deserialize_numpy] of the big-endian image of
    [1.0] returns an array whose item is not [1.0] but the float of the
    reversed bytes. *)
Theorem codec_is_native_endian_on_little_endian :
  (serialize_numpy LittleEndian one_array).1 = encode_item LittleEndian 8 float_one
  ∧ (serialize_numpy LittleEndian one_array).1 ≠ encode_item BigEndian 8 float_one
  ∧ ∃ b, deserialize_numpy LittleEndian (encode_item BigEndian 8 float_one) [1] = Ok b
         ∧ item b 0 = 0xF03F
         ∧ float_eqb (item b 0) float_one = false.
Proof.
  split; [by vm_compute|]. split; [by vm_compute|].
  eexists. split; [by vm_compute|]. by vm_compute.
Qed.

(** On a big-endian platform the same calls do use the big-endian image. *)
Example codec_on_big_endian :
  (serialize_numpy BigEndian
     (ndarray_of_items (np_dtype_float BigEndian) [1] [float_one])).1
  = encode_item BigEndian 8 float_one
  ∧ ∃ b, deserialize_numpy BigEndian (encode_item BigEndian 8 float_one) [1] = Ok b
         ∧ item b 0 = float_one.
Proof. split; [by vm_compute|]. eexists. by vm_compute. Qed.

(** C5, as the code has it: for every byte string and every shape whose
    dimensions are all non-negative, such that the length of the byte string
    is not 8 times the product of the dimensions, [deserialize_numpy] raises
    a [ValueError] and returns no array: the one of [frombuffer] when the
    length is no multiple of 8, the one of [reshape] otherwise. *)
Theorem deserialize_numpy_size_mismatch (native : byteorder)
    (serialized : list byte) (shape : list Z) :
  Forall (λ d, 0 ≤ d) shape →
  Z.of_nat (length serialized) ≠ 8 * shape_product shape →
  deserialize_numpy native serialized shape
  = Raise (ValueError
             (if decide ((length serialized mod 8)%nat = 0%nat)
              then if decide (length shape ≤ NPY_MAXDIMS)%nat
                   then msg_reshape else msg_too_many_dims
              else msg_buffer_size)).
Proof.
  intros Hpos Hne. unfold deserialize_numpy. cbn zeta.
  case_decide as Hmod.
  - rewrite frombuffer_float by done. cbn [result_bind].
    case_decide as Hrank.
    + rewrite ndarray_reshape_nonneg by done.
      rewrite decide_False; [done|].
      unfold nd_size. cbn [nd_shape shape_product fold_right]. intros Heq.
      apply Hne. rewrite Heq.
      pose proof (Nat.div_mod_eq (length serialized) 8). lia.
    + unfold ndarray_reshape. rewrite decide_True by lia. done.
  - unfold frombuffer. cbn [np_dtype_float dt_itemsize].
    rewrite decide_False by lia. by rewrite decide_False.
Qed.

Lemma deserialize_numpy_size_mismatch_witness :
  deserialize_numpy LittleEndian (encode_item LittleEndian 8 float_one) [2; 2]
  = Raise (ValueError msg_reshape).
Proof.
  apply (deserialize_numpy_size_mismatch LittleEndian
           (encode_item LittleEndian 8 float_one) [2; 2]).
  - repeat constructor; lia.
  - vm_compute. discriminate.
Defined.

Example deserialize_numpy_ragged_buffer :
  deserialize_numpy LittleEndian [x00; x01; x02] [1]
  = Raise (ValueError msg_buffer_size).
Proof. reflexivity. Qed.

(** C5 as stated fails at a shape with a negative entry, which [reshape]
    takes for a dimension to infer: 16 bytes and the shape [(-1,)] have
    [16 ≠ 8 * (-1)] and deserialize to an array of shape [(2,)]. *)
Lemma deserialize_numpy_infers_dimension :
  Z.of_nat (length (nd_data two_array)) ≠ 8 * shape_product [-1]
  ∧ deserialize_numpy LittleEndian (nd_data two_array) [-1] = Ok two_array.
Proof. split; [by vm_compute | reflexivity]. Qed.

(** ** [serialize_numpy] on the heap *)

(** C10: [serialize_numpy] does not mutate its argument.  Run on the heap, the
    call returns what the function computes from the array, and afterwards
    the argument denotes the same array (items, shape, dtype and bytes), no
    buffer has changed and no array object that existed has changed: the
    byte-order view is a new object. *)
Theorem serialize_numpy_heap_frame (native : byteorder) (l : loc) (h : heap)
    (a : ndarray) :
  array_at h l = Some a →
  ∃ h', serialize_numpy_heap native l h = Some (serialize_numpy native a, h')
        ∧ array_at h' l = Some a
        ∧ h_buffers h' = h_buffers h
        ∧ ∀ k, k ∈ dom (h_arrays h) → h_arrays h' !! k = h_arrays h !! k.
Proof.
  unfold array_at. intros Ha.
  destruct (h_arrays h !! l) as [o|] eqn:Ho; [|done]. simpl in Ha.
  destruct (h_buffers h !! ao_base o) as [buf|] eqn:Hbuf; [|done].
  injection Ha as <-.
  assert (Hfresh : h_arrays h !! fresh (dom (h_arrays h)) = None)
    by apply not_elem_of_dom, is_fresh.
  assert (Hl : fresh (dom (h_arrays h)) ≠ l) by congruence.
  eexists. split; [|split; [|split]].
  - unfold serialize_numpy_heap, heap_newbyteorder. rewrite Ho. simpl.
    unfold heap_tobytes, array_at. simpl.
    rewrite lookup_insert_eq. simpl. rewrite Hbuf. simpl.
    unfold heap_shape. simpl. rewrite lookup_insert_ne by done.
    rewrite Ho. simpl. reflexivity.
  - simpl. rewrite lookup_insert_ne by done. rewrite Ho. simpl. by rewrite Hbuf.
  - done.
  - intros k Hk. simpl. rewrite lookup_insert_ne; [done|].
    intros <-. apply elem_of_dom in Hk as [? Hk]. congruence.
Qed.

Lemma serialize_numpy_heap_frame_witness :
  ∃ h', serialize_numpy_heap LittleEndian 0%nat heap_2x2
        = Some (serialize_numpy LittleEndian array_2x2, h')
        ∧ array_at h' 0%nat = Some array_2x2
        ∧ h_buffers h' = h_buffers heap_2x2
        ∧ ∀ k, k ∈ dom (h_arrays heap_2x2) →
               h_arrays h' !! k = h_arrays heap_2x2 !! k.
Proof.
  apply (serialize_numpy_heap_frame LittleEndian 0%nat heap_2x2 array_2x2).
  reflexivity.
Defined.

(** ** The process: scoped working directory *)

Lemma chdir_dir (p : path) (s : os_state) :
  fs s !! p = Some Dir → chdir p s = (Ok (), mk_os_state p (fs s)).
Proof. intros Hp. unfold chdir. by rewrite Hp. Qed.

Lemma chdir_fails (p : path) (s : os_state) :
  fs s !! p ≠ Some Dir → ∃ e, chdir p s = (Raise e, s).
Proof.
  intros Hp. unfold chdir. destruct (fs s !! p) as [[]|]; [done | by eexists..].
Qed.

Lemma getcwd_dir (s : os_state) :
  fs s !! cwd s = Some Dir → getcwd s = (Ok (cwd s), s).
Proof. intros Hp. unfold getcwd. by rewrite Hp. Qed.

Lemma getcwd_fails (s : os_state) :
  fs s !! cwd s ≠ Some Dir → getcwd s = (Raise FileNotFoundError, s).
Proof. intros Hp. unfold getcwd. by destruct (fs s !! cwd s) as [[]|]. Qed.

(** A scope that cannot be entered leaves the process as it was. *)
Lemma temporary_cd_not_entered (dir_path : pathname) (body : os_action unit)
    (s : os_state) :
  fs s !! cwd s ≠ Some Dir →
  temporary_cd dir_path body s = (Raise FileNotFoundError, s).
Proof.
  intros Hcwd. unfold temporary_cd, os_bind. by rewrite getcwd_fails.
Qed.

(** The scope from entry to exit, when it is entered. *)
Lemma temporary_cd_entered (dir_path : pathname) (body : os_action unit)
    (s : os_state) (target : path) :
  fs s !! cwd s = Some Dir →
  abspath dir_path s = (Ok target, s) →
  fs s !! target = Some Dir →
  temporary_cd dir_path body s
  = try_finally body (chdir (cwd s)) (mk_os_state target (fs s)).
Proof.
  intros Hcwd Habs Htarget. unfold temporary_cd, os_bind.
  rewrite getcwd_dir by done. rewrite Habs. by rewrite chdir_dir.
Qed.

(** C3, as the code has it: for every directory path that resolves to an
    existing directory, when the scope exits, the body having returned or
    raised, and the directory that was current before the scope is still a
    directory, the working directory is the one it was before the scope, the
    file system is as the body left it, and the outcome of the body (its
    return or its exception) is the outcome of the scope. *)
Theorem temporary_cd_restores_cwd (dir_path : pathname) (body : os_action unit)
    (s : os_state) (target : path) (r : result unit) (s2 : os_state) :
  abspath dir_path s = (Ok target, s) →
  fs s !! target = Some Dir →
  body (mk_os_state target (fs s)) = (r, s2) →
  fs s2 !! cwd s = Some Dir →
  cwd (temporary_cd dir_path body s).2 = cwd s
  ∧ (fs s !! cwd s = Some Dir →
     temporary_cd dir_path body s = (r, mk_os_state (cwd s) (fs s2))).
Proof.
  intros Habs Htarget Hbody Hstill.
  destruct (decide (fs s !! cwd s = Some Dir)) as [Hcwd|Hcwd].
  - assert (Hrun : temporary_cd dir_path body s = (r, mk_os_state (cwd s) (fs s2))).
    { rewrite (temporary_cd_entered _ _ _ target) by done.
      unfold try_finally. rewrite Hbody. by rewrite chdir_dir. }
    rewrite Hrun. done.
  - rewrite temporary_cd_not_entered by done. done.
Qed.

(** When the directory that was current before the scope is gone at exit, the
    restoring [chdir] raises: its exception propagates and the process stays
    where the body left it. *)
Lemma temporary_cd_restore_fails (dir_path : pathname) (body : os_action unit)
    (s : os_state) (target : path) (r : result unit) (s2 : os_state) :
  fs s !! cwd s = Some Dir →
  abspath dir_path s = (Ok target, s) →
  fs s !! target = Some Dir →
  body (mk_os_state target (fs s)) = (r, s2) →
  fs s2 !! cwd s ≠ Some Dir →
  ∃ e, temporary_cd dir_path body s = (Raise e, s2).
Proof.
  intros Hcwd Habs Htarget Hbody Hgone.
  rewrite (temporary_cd_entered _ _ _ target) by done.
  unfold try_finally. rewrite Hbody.
  destruct (chdir_fails (cwd s) s2 Hgone) as [e ->]. by exists e.
Qed.

Lemma temporary_cd_restores_cwd_witness :
  cwd (temporary_cd (parse_pathname "/tmp") body_raise os_home).2 = cwd os_home
  ∧ (fs os_home !! cwd os_home = Some Dir →
     temporary_cd (parse_pathname "/tmp") body_raise os_home
     = (Raise (OtherError "RuntimeError"),
        mk_os_state (cwd os_home) (fs (mk_os_state ["tmp"] (fs os_home))))).
Proof.
  apply (temporary_cd_restores_cwd (parse_pathname "/tmp") body_raise os_home
           ["tmp"] (Raise (OtherError "RuntimeError"))
           (mk_os_state ["tmp"] (fs os_home)));
    reflexivity.
Defined.

Example temporary_cd_normal_exit :
  temporary_cd (parse_pathname "/tmp") body_pass os_home = (Ok (), os_home).
Proof. reflexivity. Qed.

Example temporary_cd_relative_path :
  temporary_cd (parse_pathname "../tmp/./") body_raise os_home
  = (Raise (OtherError "RuntimeError"), os_home).
Proof. reflexivity. Qed.

(** C3 as stated fails when the body removes the directory the process was
    in: [/tmp] is an existing directory, the scope is entered from [/home],
    the body removes [/home], and on exit [os.chdir('/home')] raises; the
    process is left in [/tmp]. *)
Lemma temporary_cd_cwd_not_restored :
  abspath (parse_pathname "/tmp") os_home = (Ok ["tmp"], os_home)
  ∧ fs os_home !! ["tmp"] = Some Dir
  ∧ temporary_cd (parse_pathname "/tmp") body_rmdir_home os_home
    = (Raise FileNotFoundError,
       mk_os_state ["tmp"] (delete ["home"] (fs os_home)))
  ∧ cwd (temporary_cd (parse_pathname "/tmp") body_rmdir_home os_home).2
    ≠ cwd os_home.
Proof. repeat split; by vm_compute. Qed.

(** ** The process: scoped temporary directory *)

(** [mkdtemp] yields a path that did not exist and is a directory
    afterwards; nothing else changes. *)
Lemma mkdtemp_fresh (tmproot : path) (candidates : list string)
    (s s1 : os_state) (tmp : path) :
  mkdtemp tmproot candidates s = (Ok tmp, s1) →
  fs s !! tmp = None
  ∧ s1 = mk_os_state (cwd s) (<[tmp := Dir]> (fs s))
  ∧ ∃ n, n ∈ candidates ∧ tmp = tmproot ++ [n].
Proof.
  unfold mkdtemp. destruct (fs s !! tmproot) as [[]|]; [|done..].
  destruct (list_find _ candidates) as [[i n]|] eqn:Hfind; [|done].
  intros [= <- <-]. apply list_find_Some in Hfind as (Hi & Hfree & _).
  split; [done|]. split; [done|]. exists n. split; [|done].
  by eapply list_elem_of_lookup_2.
Qed.

Lemma rmtree_dir (p : path) (s : os_state) :
  fs s !! p = Some Dir →
  rmtree p s
  = (Ok (), mk_os_state (cwd s) (filter (λ kv, ¬ (p `prefix_of` kv.1)) (fs s))).
Proof. intros Hp. unfold rmtree. by rewrite Hp. Qed.

Lemma rmtree_removes_below (p q : path) (tree : gmap path node) :
  p `prefix_of` q →
  filter (λ kv : path * node, ¬ (p `prefix_of` kv.1)) tree !! q = None.
Proof.
  intros Hpq. apply map_lookup_filter_None. right. intros x _ Hnot. by apply Hnot.
Qed.

Lemma rmtree_keeps_others (p q : path) (tree : gmap path node) :
  ¬ (p `prefix_of` q) →
  filter (λ kv : path * node, ¬ (p `prefix_of` kv.1)) tree !! q = tree !! q.
Proof.
  intros Hpq. destruct (tree !! q) as [x|] eqn:Hq.
  - by apply map_lookup_filter_Some.
  - apply map_lookup_filter_None. by left.
Qed.

(** C4, as the code has it: for every use of [temporary_directory], when the
    scope exits, the body having returned or raised, the yielded path no
    longer exists provided the body has not left a non-directory under that
    name.  If the path is still a directory it is deleted with everything
    below it, nothing else is, and the outcome of the body is the outcome of
    the scope. *)
Theorem temporary_directory_removes (tmproot : path) (candidates : list string)
    (body : path → os_action unit) (s s1 : os_state) (tmp : path)
    (r : result unit) (s2 : os_state) :
  mkdtemp tmproot candidates s = (Ok tmp, s1) →
  body tmp s1 = (r, s2) →
  fs s2 !! tmp ≠ Some File →
  fs (temporary_directory tmproot candidates body s).2 !! tmp = None
  ∧ (fs s2 !! tmp = Some Dir →
     ∃ s3, temporary_directory tmproot candidates body s = (r, s3)
           ∧ cwd s3 = cwd s2
           ∧ ∀ q, fs s3 !! q = if decide (tmp `prefix_of` q) then None
                               else fs s2 !! q).
Proof.
  intros Hmk Hbody Hkind.
  unfold temporary_directory, os_bind. rewrite Hmk.
  unfold try_finally. rewrite Hbody.
  destruct (fs s2 !! tmp) as [[]|] eqn:Htmp; [|done|].
  - rewrite rmtree_dir by done. split.
    + by apply rmtree_removes_below.
    + intros _. eexists. split; [done|]. split; [done|].
      intros q. simpl. case_decide.
      * by apply rmtree_removes_below.
      * by apply rmtree_keeps_others.
  - unfold rmtree. rewrite Htmp. simpl. split; [done|]. done.
Qed.

Lemma temporary_directory_removes_witness :
  fs (temporary_directory ["tmp"] ["tmpa1b2c3"] body_write_file os_home).2
    !! ["tmp"; "tmpa1b2c3"] = None
  ∧ (fs (body_write_file ["tmp"; "tmpa1b2c3"]
           (mkdtemp ["tmp"] ["tmpa1b2c3"] os_home).2).2
       !! ["tmp"; "tmpa1b2c3"] = Some Dir →
     ∃ s3, temporary_directory ["tmp"] ["tmpa1b2c3"] body_write_file os_home
           = (Ok (), s3)
           ∧ cwd s3 = ["home"]
           ∧ ∀ q, fs s3 !! q
                  = if decide (["tmp"; "tmpa1b2c3"] `prefix_of` q) then None
                    else fs (body_write_file ["tmp"; "tmpa1b2c3"]
                               (mkdtemp ["tmp"] ["tmpa1b2c3"] os_home).2).2 !! q).
Proof.
  apply (temporary_directory_removes ["tmp"] ["tmpa1b2c3"] body_write_file os_home
           (mkdtemp ["tmp"] ["tmpa1b2c3"] os_home).2 ["tmp"; "tmpa1b2c3"] (Ok ())
           (body_write_file ["tmp"; "tmpa1b2c3"]
              (mkdtemp ["tmp"] ["tmpa1b2c3"] os_home).2).2).
  - reflexivity.
  - reflexivity.
  - vm_compute. discriminate.
Defined.

Example temporary_directory_normal_exit :
  temporary_directory ["tmp"] ["tmpa1b2c3"] body_write_file os_home = (Ok (), os_home).
Proof. by vm_compute. Qed.

Example temporary_directory_body_raises :
  temporary_directory ["tmp"] ["tmpa1b2c3"] (λ _, body_raise) os_home
  = (Raise (OtherError "RuntimeError"), os_home).
Proof. by vm_compute. Qed.

(** C4 as stated fails when the body leaves a regular file under the yielded
    name: [shutil.rmtree] raises [NotADirectoryError], which propagates, and
    the path still exists after the scope. *)
Lemma temporary_directory_path_remains :
  mkdtemp ["tmp"] ["tmpa1b2c3"] os_home
  = (Ok ["tmp"; "tmpa1b2c3"],
     mk_os_state ["home"] (<[["tmp"; "tmpa1b2c3"] := Dir]> (fs os_home)))
  ∧ (temporary_directory ["tmp"] ["tmpa1b2c3"] body_replace_by_file os_home).1
    = Raise NotADirectoryError
  ∧ fs (temporary_directory ["tmp"] ["tmpa1b2c3"] body_replace_by_file os_home).2
      !! ["tmp"; "tmpa1b2c3"] = Some File.
Proof. repeat split; by vm_compute. Qed.

(** ** Packaged data files *)

Lemma posix_join_data_relative (relative_path : string) :
  String.prefix "/" relative_path = false →
  posix_join "data" relative_path = "data/" +:+ relative_path.
Proof. intros Hrel. unfold posix_join. by rewrite Hrel. Qed.

(** C7: for every relative path, with [fn] the path the installation
    resolves [data/<relative path>] of the package to: [get_data_filename]
    raises a [ValueError] whose message contains [fn] exactly when [fn] does
    not exist, and returns [fn] when it exists. *)
Theorem get_data_filename_raises_iff_missing
    (resource_filename : string → string → string) (relative_path : string)
    (s : os_state) :
  String.prefix "/" relative_path = false →
  let fn := resource_filename "openforcefield" ("data/" +:+ relative_path) in
  ((∃ msg, get_data_filename resource_filename relative_path s
           = Raise (ValueError msg) ∧ contains fn msg)
   ↔ os_path_exists fn s = false)
  ∧ (os_path_exists fn s = true →
     get_data_filename resource_filename relative_path s = Ok fn).
Proof.
  intros Hrel fn. unfold get_data_filename.
  rewrite posix_join_data_relative by done. fold fn.
  destruct (os_path_exists fn s) eqn:Hex; simpl.
  - split; [|done]. split; [|done]. by intros (msg & Hraise & _).
  - split; [|done]. split; [done|]. intros _. eexists. split; [done|].
    by exists "Sorry! ", " does not exist. If you just added it, you'll have to re-install".
Qed.

Lemma get_data_filename_raises_iff_missing_witness :
  let fn := site_packages "openforcefield" ("data/" +:+ "missing.pdb") in
  ((∃ msg, get_data_filename site_packages "missing.pdb" os_installed
           = Raise (ValueError msg) ∧ contains fn msg)
   ↔ os_path_exists fn os_installed = false)
  ∧ (os_path_exists fn os_installed = true →
     get_data_filename site_packages "missing.pdb" os_installed = Ok fn).
Proof.
  apply (get_data_filename_raises_iff_missing site_packages "missing.pdb" os_installed).
  reflexivity.
Defined.

Example get_data_filename_found :
  get_data_filename site_packages "water.pdb" os_installed
  = Ok "/site-packages/openforcefield/data/water.pdb".
Proof. by vm_compute. Qed.

Example get_data_filename_missing :
  get_data_filename site_packages "missing.pdb" os_installed
  = Raise (ValueError
             "Sorry! /site-packages/openforcefield/data/missing.pdb does not exist. If you just added it, you'll have to re-install").
Proof. by vm_compute. Qed.

(** ** Subclass enumeration *)

(** What [gather] returns, read off its results. *)
Lemma gather_Ok (results : list (option (result (list cid)))) (l : list cid) :
  gather results = Some (Ok l) ↔
  ∃ ks, Forall2 (λ r k, r = Some (Ok k)) results ks ∧ l = mjoin ks.
Proof.
  revert l. induction results as [|r results IH]; intros l.
  - simpl. split.
    + intros [= <-]. exists []. by split; [constructor|].
    + intros (ks & Hks & ->). by inversion Hks.
  - destruct r as [[k|e]|]; simpl.
    + destruct (gather results) as [[ks|e]|] eqn:Hrest.
      * split.
        -- intros [= <-]. destruct (proj1 (IH ks) eq_refl) as (ks' & Hks' & ->).
           exists (k :: ks'). split; [by constructor | done].
        -- intros (ks' & Hks' & ->).
           inversion Hks' as [|? k' ? ks'' Hk Hrest']; subst.
           injection Hk as <-.
           assert (Some (Ok ks) = Some (Ok (mjoin ks''))) as [= ->]
             by (apply IH; by exists ks'').
           done.
      * split; [done|]. intros (ks' & Hks' & ->).
        inversion Hks' as [|? k' ? ks'' Hk Hrest']; subst.
        assert (Some (Raise e) = Some (Ok (mjoin ks''))) as [=]
          by (apply IH; by exists ks'').
      * split; [done|]. intros (ks' & Hks' & ->).
        inversion Hks' as [|? k' ? ks'' Hk Hrest']; subst.
        assert (None = Some (Ok (mjoin ks''))) as [=]
          by (apply IH; by exists ks'').
    + split; [done|]. intros (ks & Hks & _). inversion Hks; subst. done.
    + split; [done|]. intros (ks & Hks & _). inversion Hks; subst. done.
Qed.

Lemma gather_Raise (results : list (option (result (list cid)))) (e : exception) :
  gather results = Some (Raise e) → Some (Raise e) ∈ results.
Proof.
  induction results as [|r results IH]; [done|].
  destruct r as [[k|e']|]; simpl.
  - destruct (gather results) as [[ks|e']|]; [done| |done].
    intros [= ->]. right. by apply IH.
  - intros [= ->]. by left.
  - done.
Qed.

Lemma gather_is_Some (results : list (option (result (list cid)))) :
  Forall is_Some results → is_Some (gather results).
Proof.
  induction 1 as [|r results [x ->] _ IH]; [by eexists|].
  destruct x as [k|e]; simpl; [|by eexists].
  destruct IH as [[ks|e] ->]; by eexists.
Qed.

(** Results that are there stay when the others change. *)
Lemma gather_mono (rs rs' : list (option (result (list cid))))
    (r : result (list cid)) :
  Forall2 (λ a b, ∀ x, a = Some x → b = Some x) rs rs' →
  gather rs = Some r → gather rs' = Some r.
Proof.
  intros Hrel. revert r.
  induction Hrel as [|a b rs rs' Hab _ IH]; intros r; [done|].
  destruct a as [[k|e]|]; [| |done].
  - rewrite (Hab _ eq_refl). simpl.
    destruct (gather rs) as [[ks|e]|]; [| |done].
    + intros [= <-]. by rewrite (IH _ eq_refl).
    + intros [= <-]. by rewrite (IH _ eq_refl).
  - rewrite (Hab _ eq_refl). done.
Qed.

Section subclass_registry.
Variable registry : gmap cid (list cid).
Variable metaclasses : gset cid.

(** One level of the recursion that returns a list. *)
Lemma all_subclasses_Ok (fuel : nat) (cls : cid) (l : list cid) :
  all_subclasses (S fuel) registry metaclasses cls = Some (Ok l) ↔
  (cls ∉ metaclasses)
  ∧ ∃ below, Forall2 (λ s k, all_subclasses fuel registry metaclasses s = Some (Ok k))
               (subclasses registry cls) below
             ∧ l = subclasses registry cls ++ mjoin below.
Proof.
  simpl. unfold call_subclasses. case_decide as Hmeta.
  - split; [done | by intros [? _]].
  - destruct (gather _) as [[ks|e]|] eqn:Hg.
    + apply gather_Ok in Hg as (below & Hbelow & ->).
      apply Forall2_fmap_l in Hbelow. split.
      * intros [= <-]. split; [done|]. by exists below.
      * intros (_ & below' & Hbelow' & ->). do 3 f_equal.
        assert (below = below') as ->; [|done].
        clear -Hbelow Hbelow'. revert below' Hbelow'.
        induction Hbelow as [|s k ss ks Hk _ IH]; intros below' Hbelow';
          inversion Hbelow' as [|? k' ? ks' Hk' Hrest]; subst; [done|].
        simpl in *. f_equal; [congruence | by apply IH].
    + split; [done|]. intros (_ & below & Hbelow & _).
      assert (Some (Raise e) = Some (Ok (mjoin below))) as [=].
      { rewrite <- Hg. apply gather_Ok. exists below. split; [|done].
        by apply Forall2_fmap_l. }
    + split; [done|]. intros (_ & below & Hbelow & _).
      assert (None = Some (Ok (mjoin below))) as [=].
      { rewrite <- Hg. apply gather_Ok. exists below. split; [|done].
        by apply Forall2_fmap_l. }
Qed.

(** More fuel does not change a result. *)
Lemma all_subclasses_fuel_mono (fuel fuel' : nat) (cls : cid)
    (r : result (list cid)) :
  all_subclasses fuel registry metaclasses cls = Some r →
  (fuel ≤ fuel')%nat →
  all_subclasses fuel' registry metaclasses cls = Some r.
Proof.
  revert fuel' cls r. induction fuel as [|fuel IH]; intros fuel' cls r; [done|].
  destruct fuel' as [|fuel']; [lia|]. intros Hrun Hle. simpl in *.
  destruct (call_subclasses registry metaclasses cls) as [direct|e]; [|done].
  assert (Hg : ∀ x, gather (map (all_subclasses fuel registry metaclasses) direct) = Some x →
                    gather (map (all_subclasses fuel' registry metaclasses) direct) = Some x).
  { intros x. apply gather_mono. apply Forall2_fmap, Forall_Forall2_diag, Forall_forall.
    intros s _ y Hy. apply IH; [done | lia]. }
  destruct (gather (map (all_subclasses fuel registry metaclasses) direct))
    as [[ks|e]|]; [| |done].
  - by rewrite (Hg _ eq_refl).
  - by rewrite (Hg _ eq_refl).
Qed.

(** The only exception is the [TypeError] of [__subclasses__], and it comes
    from a metaclass that is the class or below it. *)
Lemma all_subclasses_Raise (fuel : nat) (cls : cid) (e : exception) :
  all_subclasses fuel registry metaclasses cls = Some (Raise e) →
  e = TypeError
  ∧ ∃ x, rtc (direct_subclass registry) cls x ∧ x ∈ metaclasses.
Proof.
  revert cls. induction fuel as [|fuel IH]; intros cls; [done|].
  simpl. unfold call_subclasses. case_decide as Hmeta.
  - intros [= <-]. split; [done|]. by exists cls.
  - destruct (gather _) as [[ks|e']|] eqn:Hg; [done| |done].
    intros [= ->]. apply gather_Raise in Hg.
    apply list_elem_of_fmap in Hg as (s & Hs & Hin).
    destruct (IH s (eq_sym Hs)) as (-> & x & Hsx & Hx).
    split; [done|]. exists x. split; [|done]. by eapply rtc_l.
Qed.

(** A returned list means that no metaclass is the class or below it. *)
Lemma all_subclasses_Ok_no_metaclass (fuel : nat) (cls : cid) (l : list cid) :
  all_subclasses fuel registry metaclasses cls = Some (Ok l) →
  ∀ x, rtc (direct_subclass registry) cls x → x ∉ metaclasses.
Proof.
  revert cls l. induction fuel as [|fuel IH]; intros cls l; [done|].
  intros (Hcls & below & Hbelow & _)%all_subclasses_Ok x Hx.
  apply rtc_inv in Hx as [<-|(s & Hs & Hsx)]; [done|].
  apply list_elem_of_lookup in Hs as [i Hi].
  destruct (Forall2_lookup_l _ _ _ _ _ Hbelow Hi) as (k & _ & Hrun).
  by apply (IH s k).
Qed.

(** The members of the result are the direct and indirect subclasses. *)
Lemma all_subclasses_members (fuel : nat) (cls : cid) (l : list cid) :
  all_subclasses fuel registry metaclasses cls = Some (Ok l) →
  ∀ x, x ∈ l ↔ subclass_of registry cls x.
Proof.
  revert cls l. induction fuel as [|fuel IH]; intros cls l; [done|].
  intros (_ & below & Hbelow & ->)%all_subclasses_Ok x.
  rewrite elem_of_app, list_elem_of_join. split.
  - intros [Hx|(k & Hxk & Hk)].
    + by apply tc_once.
    + apply list_elem_of_lookup in Hk as [i Hi].
      destruct (Forall2_lookup_r _ _ _ _ _ Hbelow Hi) as (s & Hs & Hrun).
      apply tc_l with s.
      * by eapply list_elem_of_lookup_2.
      * by apply (IH s k).
  - intros Hx. inversion Hx as [? ? Hstep|? s ? Hstep Hrest]; subst.
    + by left.
    + right. apply list_elem_of_lookup in Hstep as [i Hi].
      destruct (Forall2_lookup_l _ _ _ _ _ Hbelow Hi) as (k & Hk & Hrun).
      exists k. split; [by apply (IH s k) | by eapply list_elem_of_lookup_2].
Qed.

(** Two positions in a part are two positions in the whole. *)
Lemma listed_twice_app_l (x : cid) (l1 l2 : list cid) :
  listed_twice x l1 → listed_twice x (l1 ++ l2).
Proof.
  intros (i & j & Hij & Hi & Hj). exists i, j.
  split; [done|]. split; by apply lookup_app_l_Some.
Qed.

Lemma listed_twice_app_r (x : cid) (l1 l2 : list cid) :
  listed_twice x l2 → listed_twice x (l1 ++ l2).
Proof.
  intros (i & j & Hij & Hi & Hj). exists (length l1 + i)%nat, (length l1 + j)%nat.
  split; [lia|]. by rewrite !lookup_app_r, !Nat.add_sub' by lia.
Qed.

Lemma listed_twice_app_both (x : cid) (l1 l2 : list cid) :
  x ∈ l1 → x ∈ l2 → listed_twice x (l1 ++ l2).
Proof.
  intros [i Hi]%list_elem_of_lookup [j Hj]%list_elem_of_lookup.
  exists i, (length l1 + j)%nat. apply lookup_lt_Some in Hi as Hlt.
  split; [lia|]. split; [by apply lookup_app_l_Some|].
  by rewrite lookup_app_r, Nat.add_sub' by lia.
Qed.

Lemma listed_twice_join_one (x : cid) (ls : list (list cid)) (i : nat)
    (k : list cid) :
  ls !! i = Some k → listed_twice x k → listed_twice x (mjoin ls).
Proof.
  revert i. induction ls as [|k0 ls IH]; intros i Hi Hk; [done|].
  change (mjoin (k0 :: ls)) with (k0 ++ mjoin ls).
  destruct i as [|i].
  - injection Hi as <-. by apply listed_twice_app_l.
  - apply listed_twice_app_r. by apply (IH i).
Qed.

Lemma listed_twice_join_two (x : cid) (ls : list (list cid)) (i j : nat)
    (k1 k2 : list cid) :
  i ≠ j → ls !! i = Some k1 → ls !! j = Some k2 → x ∈ k1 → x ∈ k2 →
  listed_twice x (mjoin ls).
Proof.
  revert i j. induction ls as [|k0 ls IH]; intros i j Hij Hi Hj Hx1 Hx2; [done|].
  change (mjoin (k0 :: ls)) with (k0 ++ mjoin ls).
  destruct i as [|i], j as [|j]; [done| | |].
  - injection Hi as <-. apply listed_twice_app_both; [done|].
    apply list_elem_of_join. exists k2. split; [done|]. by eapply list_elem_of_lookup_2.
  - injection Hj as <-. apply listed_twice_app_both; [done|].
    apply list_elem_of_join. exists k1. split; [done|]. by eapply list_elem_of_lookup_2.
  - apply listed_twice_app_r. apply (IH i j); [lia | done..].
Qed.

(** A class that is an immediate subclass of two different classes, each the
    class asked for or below it, is listed twice. *)
Lemma all_subclasses_listed_twice (x : cid) (fuel : nat) (cls : cid)
    (l : list cid) (y1 y2 : cid) :
  all_subclasses fuel registry metaclasses cls = Some (Ok l) →
  y1 ≠ y2 →
  rtc (direct_subclass registry) cls y1 →
  rtc (direct_subclass registry) cls y2 →
  direct_subclass registry y1 x →
  direct_subclass registry y2 x →
  listed_twice x l.
Proof.
  revert cls l y1 y2. induction fuel as [|fuel IH]; intros cls l y1 y2; [done|].
  intros Hl Hne Hy1 Hy2 Hx1 Hx2. pose proof Hl as Hl'.
  apply all_subclasses_Ok in Hl as (_ & below & Hbelow & ->).
  assert (Hvia : ∀ y s, direct_subclass registry cls s →
                        rtc (direct_subclass registry) s y →
                        direct_subclass registry y x →
                        ∃ i k, subclasses registry cls !! i = Some s
                               ∧ below !! i = Some k
                               ∧ all_subclasses fuel registry metaclasses s = Some (Ok k)
                               ∧ x ∈ k).
  { intros y s Hs Hsy Hyx. apply list_elem_of_lookup in Hs as [i Hi].
    destruct (Forall2_lookup_l _ _ _ _ _ Hbelow Hi) as (k & Hk & Hrun).
    exists i, k. repeat split; [done..|].
    apply (all_subclasses_members fuel s k Hrun).
    by eapply tc_rtc_l; [|apply tc_once]. }
  apply rtc_inv in Hy1 as [<-|(s1 & Hs1 & Hy1)];
    apply rtc_inv in Hy2 as [<-|(s2 & Hs2 & Hy2)].
  - done.
  - destruct (Hvia y2 s2 Hs2 Hy2 Hx2) as (i & k & _ & Hk & _ & Hxk).
    apply listed_twice_app_both; [done|].
    apply list_elem_of_join. exists k. split; [done|]. by eapply list_elem_of_lookup_2.
  - destruct (Hvia y1 s1 Hs1 Hy1 Hx1) as (i & k & _ & Hk & _ & Hxk).
    apply listed_twice_app_both; [done|].
    apply list_elem_of_join. exists k. split; [done|]. by eapply list_elem_of_lookup_2.
  - destruct (Hvia y1 s1 Hs1 Hy1 Hx1) as (i1 & k1 & Hi1 & Hk1 & Hrun1 & Hxk1).
    destruct (Hvia y2 s2 Hs2 Hy2 Hx2) as (i2 & k2 & Hi2 & Hk2 & Hrun2 & Hxk2).
    apply listed_twice_app_r.
    destruct (decide (i1 = i2)) as [->|Hi].
    + assert (s1 = s2) as -> by congruence.
      assert (k1 = k2) as -> by congruence.
      apply (listed_twice_join_one x below i2 k2 Hk2).
      by apply (IH s2 k2 y1 y2).
    + by apply (listed_twice_join_two x below i1 i2 k1 k2).
Qed.

(** Classes cannot inherit from one another in a circle: a class is defined
    after its bases.  A height function witnesses it. *)
Variable height : cid → nat.
Hypothesis height_decreases :
  ∀ c s, direct_subclass registry c s → (height s < height c)%nat.

Lemma height_rtc (c s : cid) :
  rtc (direct_subclass registry) c s → (height s ≤ height c)%nat.
Proof.
  induction 1 as [|c m s Hcm _ IH]; [done|].
  apply height_decreases in Hcm. lia.
Qed.

Lemma height_tc (c s : cid) :
  subclass_of registry c s → (height s < height c)%nat.
Proof.
  induction 1 as [c s Hcm|c m s Hcm _ IH]; apply height_decreases in Hcm; lia.
Qed.

(** With fuel above the height of the class, the recursion finishes. *)
Lemma all_subclasses_returns (fuel : nat) (cls : cid) :
  (height cls < fuel)%nat → is_Some (all_subclasses fuel registry metaclasses cls).
Proof.
  revert cls. induction fuel as [|fuel IH]; intros cls Hfuel; [lia|].
  simpl. unfold call_subclasses. case_decide; [by eexists|].
  assert (Hg : is_Some (gather (map (all_subclasses fuel registry metaclasses)
                                  (subclasses registry cls)))).
  { apply gather_is_Some, Forall_fmap, Forall_forall. intros s Hs. apply IH.
    apply (height_decreases cls s) in Hs. lia. }
  destruct Hg as [[ks|e] ->]; by eexists.
Qed.

(** Under single inheritance the classes above a class form a chain. *)
Lemma ancestors_chain (a b p : cid) :
  single_inheritance registry →
  rtc (direct_subclass registry) a p →
  rtc (direct_subclass registry) b p →
  rtc (direct_subclass registry) a b ∨ rtc (direct_subclass registry) b a.
Proof.
  intros [_ Hone] Hap. revert b.
  refine (rtc_ind_r (λ p, ∀ b, rtc (direct_subclass registry) b p →
                               rtc (direct_subclass registry) a b
                               ∨ rtc (direct_subclass registry) b a)
            a _ _ p Hap); clear p Hap.
  - intros b Hbp. by right.
  - intros y p Hay Hyp IH b Hbp.
    apply rtc_inv_r in Hbp as [->|(y' & Hby' & Hy'p)].
    + left. by eapply rtc_r.
    + rewrite (Hone y' y p Hy'p Hyp) in Hby'. by apply IH.
Qed.

(** Two different immediate subclasses of a class have no subclass in
    common, and none of their subclasses is an immediate subclass of the
    class. *)
Lemma siblings_disjoint (cls s1 s2 x : cid) :
  single_inheritance registry →
  direct_subclass registry cls s1 →
  direct_subclass registry cls s2 →
  subclass_of registry s1 x →
  subclass_of registry s2 x →
  s1 = s2.
Proof.
  intros Hsingle H1 H2 Hx1 Hx2.
  assert (Hup : ∀ a b, direct_subclass registry cls a →
                       direct_subclass registry cls b →
                       rtc (direct_subclass registry) a b → a = b).
  { intros a b Ha Hb Hab. apply rtc_inv_r in Hab as [|(y & Hay & Hyb)]; [done|].
    destruct Hsingle as [_ Hone]. rewrite <- (Hone cls y b Hb Hyb) in Hay.
    apply height_rtc in Hay. apply height_decreases in Ha. lia. }
  destruct (ancestors_chain s1 s2 x Hsingle) as [H|H];
    [by apply tc_rtc..| by apply Hup | symmetry; by apply Hup].
Qed.

Lemma subclass_of_last_step (a x : cid) :
  subclass_of registry a x →
  ∃ y, rtc (direct_subclass registry) a y ∧ direct_subclass registry y x.
Proof.
  induction 1 as [a x Hax|a m x Ham _ (y & Hmy & Hyx)].
  - by exists a.
  - exists y. split; [by eapply rtc_l | done].
Qed.

Lemma child_not_below_sibling (cls s x : cid) :
  single_inheritance registry →
  direct_subclass registry cls s →
  direct_subclass registry cls x →
  ¬ subclass_of registry s x.
Proof.
  intros [_ Hone] Hs Hx Hsx.
  apply subclass_of_last_step in Hsx as (y & Hsy & Hyx).
  rewrite <- (Hone cls y x Hx Hyx) in Hsy.
  apply height_rtc in Hsy. apply height_decreases in Hs. lia.
Qed.

Lemma all_subclasses_NoDup (fuel : nat) (cls : cid) (l : list cid) :
  single_inheritance registry →
  all_subclasses fuel registry metaclasses cls = Some (Ok l) →
  NoDup l.
Proof.
  intros Hsingle. revert cls l.
  induction fuel as [|fuel IH]; intros cls l; [done|].
  intros (_ & below & Hbelow & ->)%all_subclasses_Ok.
  assert (Hchildren : ∀ s, s ∈ subclasses registry cls →
                           direct_subclass registry cls s) by done.
  pose proof (proj1 Hsingle cls) as Hnodup.
  apply NoDup_app. split; [done|]. split.
  - intros x Hx Hin. apply list_elem_of_join in Hin as (k & Hxk & Hk).
    apply list_elem_of_lookup in Hk as [i Hi].
    destruct (Forall2_lookup_r _ _ _ _ _ Hbelow Hi) as (s & Hs & Hrun).
    apply (child_not_below_sibling cls s x); [done| |done|].
    + by eapply list_elem_of_lookup_2.
    + by apply (all_subclasses_members fuel s k).
  - clear Hchildren.
    assert (Hchildren : ∀ s, s ∈ subclasses registry cls →
                             direct_subclass registry cls s) by done.
    revert Hnodup Hchildren.
    generalize dependent (subclasses registry cls). intros subs Hbelow.
    induction Hbelow as [|s k rest below Hrun Hbelow IHbelow];
      intros Hnodup Hchildren; [constructor|].
    apply NoDup_cons in Hnodup as [Hs Hnodup].
    change (mjoin (k :: below)) with (k ++ mjoin below).
    apply NoDup_app. split; [by apply (IH s)|]. split.
    + intros x Hxk Hin. apply list_elem_of_join in Hin as (k' & Hxk' & Hk').
      apply list_elem_of_lookup in Hk' as [i Hi].
      destruct (Forall2_lookup_r _ _ _ _ _ Hbelow Hi) as (s' & Hs' & Hrun').
      apply list_elem_of_lookup_2 in Hs'.
      assert (s = s') as <-; [|done].
      apply (siblings_disjoint cls s s' x); [done|..].
      * apply Hchildren. by left.
      * apply Hchildren. by right.
      * by apply (all_subclasses_members fuel s k).
      * by apply (all_subclasses_members fuel s' k').
    + apply IHbelow; [done|]. intros s' Hs'. apply Hchildren. by right.
Qed.
End subclass_registry.

(** C9, as the code has it.  In a hierarchy (classes never inherit in a
    circle):
    - for a class that is no metaclass and has none below it,
      [all_subclasses] returns a list in which a class appears exactly when
      it is a direct or indirect subclass; under single inheritance no
      subclass appears more than once; a class that is an immediate subclass
      of two different classes, each the class asked for or below it,
      appears more than once;
    - for a class that is a metaclass or has one below it ([type], and so
      [object]), the call raises the [TypeError] of [__subclasses__]. *)
Theorem all_subclasses_reachable (registry : gmap cid (list cid))
    (metaclasses : gset cid) (height : cid → nat) (cls : cid) :
  (∀ c s, direct_subclass registry c s → (height s < height c)%nat) →
  ((∀ x, rtc (direct_subclass registry) cls x → x ∉ metaclasses) →
   ∃ l, (∀ fuel, (height cls < fuel)%nat →
                 all_subclasses fuel registry metaclasses cls = Some (Ok l))
        ∧ (∀ x, x ∈ l ↔ subclass_of registry cls x)
        ∧ (single_inheritance registry → NoDup l)
        ∧ (∀ x y1 y2, y1 ≠ y2 →
                      rtc (direct_subclass registry) cls y1 →
                      rtc (direct_subclass registry) cls y2 →
                      direct_subclass registry y1 x →
                      direct_subclass registry y2 x →
                      listed_twice x l))
  ∧ ((∃ x, rtc (direct_subclass registry) cls x ∧ x ∈ metaclasses) →
     ∀ fuel, (height cls < fuel)%nat →
             all_subclasses fuel registry metaclasses cls = Some (Raise TypeError)).
Proof.
  intros Hacyclic.
  destruct (all_subclasses_returns registry metaclasses height Hacyclic
              (S (height cls)) cls) as [r Hr]; [lia|].
  split.
  - intros Hplain. destruct r as [l|e].
    + exists l. split; [|split; [|split]].
      * intros fuel Hfuel.
        apply (all_subclasses_fuel_mono registry metaclasses (S (height cls)));
          [done|lia].
      * by apply (all_subclasses_members registry metaclasses (S (height cls))).
      * intros Hsingle.
        by apply (all_subclasses_NoDup registry metaclasses height Hacyclic
                    (S (height cls)) cls).
      * intros x y1 y2.
        by apply (all_subclasses_listed_twice registry metaclasses x
                    (S (height cls)) cls).
    + apply all_subclasses_Raise in Hr as (_ & x & Hx & Hmeta).
      by destruct (Hplain x Hx).
  - intros (x & Hx & Hmeta) fuel Hfuel. destruct r as [l|e].
    + by destruct (all_subclasses_Ok_no_metaclass registry metaclasses
                     (S (height cls)) cls l Hr x Hx).
    + pose proof Hr as Hraise.
      apply all_subclasses_Raise in Hraise as (-> & _).
      apply (all_subclasses_fuel_mono registry metaclasses (S (height cls)));
        [done|lia].
Qed.

(** Case analysis on which key of a literal registry a class is. *)
Ltac registry_cases c :=
  repeat match goal with
  | |- context [ <[?k := _]> _ !! c ] =>
      let Hne := fresh "Hne" in
      destruct (decide (c = k)) as [->|Hne];
      [rewrite lookup_insert_eq | rewrite lookup_insert_ne by done]
  | |- context [ {[?k := _]} !! c ] =>
      let Hne := fresh "Hne" in
      destruct (decide (c = k)) as [->|Hne];
      [rewrite lookup_singleton_eq | rewrite lookup_singleton_ne by done]
  end.

(** Membership in a literal list, case by case. *)
Ltac literal_elem :=
  repeat match goal with
  | H : _ ∈ [] |- _ => by apply elem_of_nil in H
  | H : _ ∈ _ :: _ |- _ => apply elem_of_cons in H as [H|H]; subst
  end.

Lemma tree_height_decreases (c s : cid) :
  direct_subclass tree c s → (diamond_height s < diamond_height c)%nat.
Proof.
  unfold direct_subclass, subclasses, tree.
  registry_cases c; simpl; intros Hs; literal_elem; by vm_compute.
Qed.

Lemma tree_single_inheritance : single_inheritance tree.
Proof.
  split.
  - intros c. unfold subclasses, tree. registry_cases c; simpl;
      repeat (apply NoDup_cons; split; [intros Hin; by literal_elem|]);
      apply NoDup_nil_2.
  - intros c1 c2 s. unfold direct_subclass, subclasses, tree.
    registry_cases c1; registry_cases c2; simpl; intros H1 H2; by literal_elem.
Qed.

Lemma python_height_decreases (c s : cid) :
  direct_subclass python_registry c s → (python_height s < python_height c)%nat.
Proof.
  unfold direct_subclass, subclasses, python_registry.
  registry_cases c; simpl; intros Hs; literal_elem; vm_compute; lia.
Qed.

(** What is below [A] in the builtin hierarchy: no metaclass. *)
Lemma python_below_A (x : cid) :
  rtc (direct_subclass python_registry) "A" x → x ∈ ["A"; "B"; "C"; "D"].
Proof.
  intros Hx.
  refine (rtc_ind_r (λ x, x ∈ ["A"; "B"; "C"; "D"]) "A" _ _ x Hx); clear x Hx.
  - by left.
  - intros y x _ Hyx Hy. revert Hyx.
    unfold direct_subclass, subclasses, python_registry.
    literal_elem; intros Hx; vm_compute in Hx;
      match type of Hx with list_elem_of ?a ?l => change (a ∈ l) in Hx end;
      literal_elem; repeat first [by left | right].
Qed.

Lemma all_subclasses_reachable_witness :
  (∃ l, (∀ fuel, (python_height "A" < fuel)%nat →
                 all_subclasses fuel python_registry python_metaclasses "A" = Some (Ok l))
        ∧ (∀ x, x ∈ l ↔ subclass_of python_registry "A" x)
        ∧ (single_inheritance python_registry → NoDup l)
        ∧ (∀ x y1 y2, y1 ≠ y2 →
                      rtc (direct_subclass python_registry) "A" y1 →
                      rtc (direct_subclass python_registry) "A" y2 →
                      direct_subclass python_registry y1 x →
                      direct_subclass python_registry y2 x →
                      listed_twice x l))
  ∧ (∀ fuel, (python_height "object" < fuel)%nat →
             all_subclasses fuel python_registry python_metaclasses "object"
             = Some (Raise TypeError)).
Proof.
  split.
  - apply (all_subclasses_reachable python_registry python_metaclasses
             python_height "A").
    + exact python_height_decreases.
    + intros x Hx%python_below_A. literal_elem; by vm_compute.
  - apply (all_subclasses_reachable python_registry python_metaclasses
             python_height "object").
    + exact python_height_decreases.
    + exists "type". split; [|by vm_compute].
      apply rtc_once. unfold direct_subclass. vm_compute. by left.
Defined.

Example all_subclasses_tree :
  all_subclasses 3 tree ∅ "A" = Some (Ok ["B"; "C"; "D"]).
Proof. by vm_compute. Qed.

Example all_subclasses_python_A :
  all_subclasses 3 python_registry python_metaclasses "A"
  = Some (Ok ["B"; "C"; "D"; "D"]).
Proof. by vm_compute. Qed.

(** C9 as stated fails twice.  With [class D(B, C)] below [class B(A)] and
    [class C(A)], the class [D] is listed once for each of its two bases;
    and for [object], whose immediate subclasses include [type], the call
    returns no list: [type.__subclasses__()] raises [TypeError]. *)
Lemma all_subclasses_diamond_repeats :
  all_subclasses 3 diamond ∅ "A" = Some (Ok ["B"; "C"; "D"; "D"])
  ∧ ¬ NoDup ["B"; "C"; "D"; "D"]
  ∧ all_subclasses 4 python_registry python_metaclasses "object"
    = Some (Raise TypeError).
Proof.
  split; [by vm_compute|]. split; [|by vm_compute].
  intros Hnodup. do 2 apply NoDup_cons in Hnodup as [_ Hnodup].
  apply NoDup_cons in Hnodup as [Hin _]. apply Hin. by left.
Qed.

(** ** Docstring inheritance *)

Lemma class_hasattr_None (classes : gmap cid pyclass) (c : cid) (name : string) :
  class_getattr classes c name = None → class_hasattr classes c name = false.
Proof.
  intros Hc. unfold class_hasattr. rewrite Hc.
  apply bool_decide_eq_false_2. by intros [? ?].
Qed.

Lemma class_hasattr_Some (classes : gmap cid pyclass) (c : cid) (name : string)
    (v : attr) :
  class_getattr classes c name = Some v → class_hasattr classes c name = true.
Proof.
  intros Hc. unfold class_hasattr. rewrite Hc.
  apply bool_decide_eq_true_2. by eexists.
Qed.

(** The inner loop writes the docstring of one function object only. *)
Lemma inherit_from_parents_other (classes : gmap cid pyclass) (name : string)
    (func : loc) (parents : list cid) (docs : gmap loc (option string)) (g : loc) :
  g ≠ func →
  func_doc (inherit_from_parents classes name func parents docs) g = func_doc docs g.
Proof.
  intros Hg. unfold inherit_from_parents. revert docs.
  induction parents as [|p parents IH]; intros docs0; [done|].
  simpl. rewrite IH. destruct (class_hasattr classes p name); [|done].
  destruct (class_getattr classes p name); [|done].
  unfold func_doc. by rewrite lookup_insert_ne.
Qed.

(** Parents that lack the attribute assign nothing. *)
Lemma inherit_from_parents_none (classes : gmap cid pyclass) (name : string)
    (func : loc) (parents : list cid) (docs : gmap loc (option string)) :
  Forall (λ p, class_getattr classes p name = None) parents →
  inherit_from_parents classes name func parents docs = docs.
Proof.
  unfold inherit_from_parents. intros Hnone. revert docs.
  induction Hnone as [|p parents Hp _ IH]; intros docs0; [done|].
  cbn [fold_left]. rewrite (class_hasattr_None _ _ _ Hp). apply IH.
Qed.

(** The loop has no [break]: when several parents have the attribute, each
    assigns in turn and the LAST of them in the method-resolution order
    decides the docstring. *)
Lemma inherit_from_parents_last (classes : gmap cid pyclass) (name : string)
    (func : loc) (before : list cid) (p : cid) (after : list cid)
    (docs : gmap loc (option string)) (v : attr) :
  class_getattr classes p name = Some v →
  (∀ g, v = Function g ∨ v = Method g → g ≠ func) →
  Forall (λ q, class_getattr classes q name = None) after →
  func_doc (inherit_from_parents classes name func (before ++ p :: after) docs) func
  = attr_doc docs v.
Proof.
  intros Hp Hv Hafter. unfold inherit_from_parents.
  rewrite fold_left_app. cbn [fold_left].
  fold (inherit_from_parents classes name func before docs).
  set (docs1 := inherit_from_parents classes name func before docs).
  rewrite (class_hasattr_Some _ _ _ _ Hp), Hp.
  fold (inherit_from_parents classes name func after (<[func:=attr_doc docs1 v]> docs1)).
  rewrite inherit_from_parents_none by done.
  unfold func_doc at 1. rewrite lookup_insert_eq. simpl.
  destruct v as [g|g|d|d1 d2]; [| |done..]; simpl;
    apply inherit_from_parents_other, Hv; auto.
Qed.

(** A function object that has a docstring keeps it. *)
Lemma inherit_docstrings_keeps_documented (classes : gmap cid pyclass) (cls : cid)
    (docs : gmap loc (option string)) (f : loc) :
  doc_truthy (func_doc docs f) = true →
  func_doc (inherit_docstrings classes cls docs) f = func_doc docs f.
Proof.
  intros Hdoc. unfold inherit_docstrings.
  generalize (getmembers_isfunction classes cls). intros members.
  assert (Hgen : ∀ docs', func_doc docs' f = func_doc docs f →
    func_doc
      (fold_left (λ docs '(name, func),
                    if doc_truthy (func_doc docs func) then docs
                    else inherit_from_parents classes name func
                           (tail (default [] (cls_mro <$> classes !! cls))) docs)
                 members docs') f = func_doc docs f); [|by apply Hgen].
  induction members as [|[name func] members IH]; intros docs' Hsame; [done|].
  simpl. apply IH.
  destruct (doc_truthy (func_doc docs' func)) eqn:Htruthy; [done|].
  rewrite inherit_from_parents_other; [done|].
  intros ->. congruence.
Qed.

(** C8, evaluated on a chain of three classes that each define [foo]: [C.foo]
    has no docstring, the first ancestor of [C] with a [foo] is [B], documented
    ["B.foo"]; after [inherit_docstrings(C)] the docstring of [C.foo] is
    ["A.foo"], that of the last ancestor with a [foo].  The documented
    functions are unchanged. *)
Theorem inherit_docstrings_takes_last_ancestor :
  getmembers_isfunction chain_classes "C" = [("foo", 3%nat)]
  ∧ func_doc chain_docs 3%nat = None
  ∧ spec_first_ancestor_doc chain_classes "C" "foo" chain_docs = Some (Some "B.foo")
  ∧ func_doc (inherit_docstrings chain_classes "C" chain_docs) 3%nat = Some "A.foo"
  ∧ func_doc (inherit_docstrings chain_classes "C" chain_docs) 2%nat = Some "B.foo"
  ∧ func_doc (inherit_docstrings chain_classes "C" chain_docs) 1%nat = Some "A.foo".
Proof. repeat split; by vm_compute. Qed.

(** * Further properties *)

(** ** The array codec beyond native floats *)

Lemma ndarray_reshape_same_shape (a : ndarray) :
  ndarray_wf a →
  ∀ c, nd_size c = nd_size a →
       ndarray_reshape c (nd_shape a)
       = Ok (mk_ndarray (nd_shape a) (nd_dtype c) (nd_data c)).
Proof.
  intros (Hpos & Hrank & _) c Hsize.
  rewrite ndarray_reshape_nonneg by done. by rewrite decide_True.
Qed.

(** X1: for every array with 8-byte items, of whatever kind and byte order,
    [deserialize_numpy] applied to what [serialize_numpy] returned gives an
    array of the native float dtype over the very same bytes, of the same
    shape: each item is the memory of the original item read as a float in
    the platform's byte order.  Nothing is converted. *)
Theorem roundtrip_reinterprets (native : byteorder) (a : ndarray) :
  ndarray_wf a →
  dt_itemsize (nd_dtype a) = 8%nat →
  ∃ b, roundtrip native a = Ok b
       ∧ nd_shape b = nd_shape a
       ∧ nd_dtype b = np_dtype_float native
       ∧ nd_data b = nd_data a
       ∧ ∀ i : nat, item b i = decode_item native (item_bytes a i).
Proof.
  intros Hwf Hsize. pose proof Hwf as (Hpos & Hrank & Hlen).
  rewrite Hsize in Hlen.
  destruct (multiple_of_8 _ _ Hlen) as [Hmod Hdiv].
  eexists. split.
  - unfold roundtrip. rewrite serialize_numpy_bytes.
    unfold deserialize_numpy. cbn zeta.
    rewrite frombuffer_float by done. cbn [result_bind].
    apply ndarray_reshape_same_shape; [done|].
    unfold nd_size. cbn [nd_shape shape_product fold_right].
    fold (nd_size a). lia.
  - cbn [nd_shape nd_dtype nd_data]. repeat split.
    intros i. unfold item, item_bytes. cbn [nd_dtype nd_data np_dtype_float dt_order dt_itemsize].
    by rewrite Hsize.
Qed.

Lemma int64_array_wf : ndarray_wf int64_array.
Proof.
  apply ndarray_of_items_wf; [repeat constructor; lia | unfold NPY_MAXDIMS; simpl; lia | done].
Qed.

Lemma roundtrip_reinterprets_witness :
  ∃ b, roundtrip LittleEndian int64_array = Ok b
       ∧ nd_shape b = nd_shape int64_array
       ∧ nd_dtype b = np_dtype_float LittleEndian
       ∧ nd_data b = nd_data int64_array
       ∧ ∀ i : nat, item b i = decode_item LittleEndian (item_bytes int64_array i).
Proof.
  apply (roundtrip_reinterprets LittleEndian int64_array);
    [apply int64_array_wf | reflexivity].
Defined.

(** The integers 1 and 2 come back as the denormal floats of bit patterns 1
    and 2. *)
Example roundtrip_int64 :
  ∃ b, roundtrip LittleEndian int64_array = Ok b
       ∧ nd_dtype b = mk_dtype KFloat 8 LittleEndian
       ∧ item b 0 = 1 ∧ item b 1 = 2.
Proof. eexists. by vm_compute. Qed.

(** X2: an array with items that are not 8 bytes wide and at least one item
    does not survive the round trip: [deserialize_numpy] raises the
    [ValueError] of [frombuffer] or of [reshape].  An array without items
    comes back as the empty float array of its shape, provided that the
    shape is one a float array can have (8 bytes times its dimensions that
    are not zero fit in [npy_intp]). *)
Theorem roundtrip_other_itemsize (native : byteorder) (a : ndarray) :
  ndarray_wf a →
  dt_itemsize (nd_dtype a) ≠ 8%nat →
  (0 < nd_size a →
   roundtrip native a
   = Raise (ValueError (if decide ((length (nd_data a) mod 8)%nat = 0%nat)
                        then msg_reshape else msg_buffer_size)))
  ∧ (nd_size a = 0 →
     shape_fits 8 (nd_shape a) →
     roundtrip native a = Ok (mk_ndarray (nd_shape a) (np_dtype_float native) [])).
Proof.
  intros Hwf Hsize. pose proof Hwf as (Hpos & Hrank & Hlen).
  unfold roundtrip. rewrite serialize_numpy_bytes.
  unfold deserialize_numpy. cbn zeta. split.
  - intros Hitems. case_decide as Hmod.
    + rewrite frombuffer_float by done. cbn [result_bind].
      rewrite ndarray_reshape_nonneg by done.
      rewrite decide_False; [done|].
      unfold nd_size at 1. cbn [nd_shape shape_product fold_right]. fold (nd_size a).
      intros Heq.
      pose proof (Nat.div_mod_eq (length (nd_data a)) 8) as Hdm.
      assert (Hl : Z.of_nat (length (nd_data a)) = 8 * nd_size a) by lia.
      rewrite Hl in Hlen. nia.
    + unfold frombuffer. cbn [np_dtype_float dt_itemsize].
      rewrite decide_False by lia. by rewrite decide_False.
  - intros Hempty _. rewrite Hempty in Hlen.
    assert (Hnil : nd_data a = []).
    { apply length_zero_iff_nil. lia. }
    rewrite Hnil. rewrite frombuffer_float by done. cbn [result_bind].
    apply (ndarray_reshape_same_shape a Hwf).
    unfold nd_size at 1. cbn [nd_shape shape_product fold_right length]. simpl. lia.
Qed.

Lemma float32_array_wf : ndarray_wf float32_array.
Proof.
  apply ndarray_of_items_wf; [repeat constructor; lia | unfold NPY_MAXDIMS; simpl; lia | done].
Qed.

Lemma roundtrip_other_itemsize_witness :
  (0 < nd_size float32_array →
   roundtrip LittleEndian float32_array
   = Raise (ValueError (if decide ((length (nd_data float32_array) mod 8)%nat = 0%nat)
                        then msg_reshape else msg_buffer_size)))
  ∧ (nd_size float32_array = 0 →
     shape_fits 8 (nd_shape float32_array) →
     roundtrip LittleEndian float32_array
     = Ok (mk_ndarray (nd_shape float32_array) (np_dtype_float LittleEndian) [])).
Proof.
  apply (roundtrip_other_itemsize LittleEndian float32_array);
    [apply float32_array_wf | vm_compute; discriminate].
Defined.

(** ** The codec across platforms *)

Lemma encode_item_swap (p q : byteorder) (n : nat) (v : Z) :
  p ≠ q → encode_item p n v = rev (encode_item q n v).
Proof.
  destruct p, q; intros Hpq; try done; simpl; by rewrite ?rev_involutive.
Qed.

(** X3: an array of floats written by [serialize_numpy] on a platform [p] and
    read by [deserialize_numpy] on a platform [q] comes back with the shape
    it had, and every item holds the bytes that [p] wrote: it is the original
    float when [p] and [q] have the same byte order, and the float of the
    reversed bytes when they differ.  The format is not portable. *)
Theorem transport (p q : byteorder) (shape : list Z) (values : list Z) :
  Forall (λ d, 0 ≤ d) shape →
  (length shape ≤ NPY_MAXDIMS)%nat →
  Z.of_nat (length values) = shape_product shape →
  Forall (λ v, 0 ≤ v < 256 ^ 8) values →
  let a := ndarray_of_items (np_dtype_float p) shape values in
  ∃ b, deserialize_numpy q (serialize_numpy p a).1 (serialize_numpy p a).2 = Ok b
       ∧ nd_shape b = shape
       ∧ ∀ (i : nat) (v : Z), values !! i = Some v →
           (p = q → item b i = v)
           ∧ (p ≠ q → item b i = decode_item q (rev (encode_item q 8 v))).
Proof.
  intros Hpos Hrank Hlen Hrange a.
  assert (Hwf : ndarray_wf a) by by apply ndarray_of_items_wf.
  destruct (roundtrip_reinterprets q a Hwf eq_refl)
    as (b & Hb & Hshape & _ & _ & Hitem).
  exists b. split; [|split; [done|]].
  - unfold roundtrip in Hb. by rewrite serialize_numpy_bytes in *.
  - intros i v Hv. rewrite Hitem.
    unfold a. rewrite (item_bytes_of_items _ _ _ _ _ Hv).
    cbn [np_dtype_float dt_order dt_itemsize]. split.
    + intros ->. apply decode_encode_item.
      by apply (proj1 (Forall_lookup _ _) Hrange i v).
    + intros Hpq. by rewrite (encode_item_swap p q).
Qed.

Lemma transport_witness :
  let a := ndarray_of_items (np_dtype_float LittleEndian) [1] [float_one] in
  ∃ b, deserialize_numpy BigEndian (serialize_numpy LittleEndian a).1
         (serialize_numpy LittleEndian a).2 = Ok b
       ∧ nd_shape b = [1]
       ∧ ∀ (i : nat) (v : Z), [float_one] !! i = Some v →
           (LittleEndian = BigEndian → item b i = v)
           ∧ (LittleEndian ≠ BigEndian →
              item b i = decode_item BigEndian (rev (encode_item BigEndian 8 v))).
Proof.
  apply (transport LittleEndian BigEndian [1] [float_one]).
  - repeat constructor; lia.
  - unfold NPY_MAXDIMS. simpl. lia.
  - reflexivity.
  - repeat constructor; by vm_compute.
Defined.

(** ** What [deserialize_numpy] returns *)

(** With no negative entry a shape is taken as it is; with one, the entry is
    replaced and the product of the result is the inferred dimension times
    the product of the others. *)
Lemma inferred_shape_none (q : Z) (shape : list Z) :
  unknown_count shape = 0%nat →
  map (λ d, if decide (d < 0) then q else d) shape = shape
  ∧ known_product shape = shape_product shape
  ∧ Forall (λ d, 0 ≤ d) shape.
Proof.
  unfold unknown_count, known_product.
  induction shape as [|d shape IH]; [done|].
  destruct (decide (d < 0)) as [Hd|Hd].
  - by rewrite filter_cons_True.
  - rewrite filter_cons_False by done. intros Hc.
    destruct (IH Hc) as (Hmap & Hknown & Hall).
    rewrite (filter_cons_True (λ d, 0 ≤ d)) by lia.
    cbn [map shape_product fold_right]. rewrite decide_False by done.
    fold (shape_product (filter (λ d, 0 ≤ d) shape)). fold (shape_product shape).
    rewrite Hmap, Hknown. repeat split. constructor; [lia|done].
Qed.

Lemma inferred_shape_one (q : Z) (shape : list Z) :
  unknown_count shape = 1%nat →
  0 ≤ q →
  shape_product (map (λ d, if decide (d < 0) then q else d) shape)
  = q * known_product shape
  ∧ Forall (λ d, 0 ≤ d) (map (λ d, if decide (d < 0) then q else d) shape).
Proof.
  unfold unknown_count, known_product. intros Hc Hq. revert Hc.
  induction shape as [|d shape IH]; [done|].
  destruct (decide (d < 0)) as [Hd|Hd].
  - rewrite filter_cons_True by done. cbn [length]. intros [= Hc].
    destruct (inferred_shape_none q shape Hc) as (Hmap & Hknown & Hall).
    rewrite (filter_cons_False (λ d, 0 ≤ d)) by lia.
    cbn [map shape_product fold_right]. rewrite decide_True by done.
    fold (shape_product (map (λ d, if decide (d < 0) then q else d) shape)).
    rewrite Hmap. unfold known_product in Hknown. rewrite Hknown.
    split; [done|]. by constructor.
  - rewrite filter_cons_False by done. intros Hc.
    destruct (IH Hc) as [Hprod Hall].
    rewrite (filter_cons_True (λ d, 0 ≤ d)) by lia.
    cbn [map shape_product fold_right]. rewrite decide_False by done.
    fold (shape_product (map (λ d, if decide (d < 0) then q else d) shape)).
    fold (shape_product (filter (λ d, 0 ≤ d) shape)).
    rewrite Hprod. split; [lia|]. constructor; [lia|done].
Qed.

Lemma known_product_nonneg (shape : list Z) : 0 ≤ known_product shape.
Proof.
  unfold known_product. apply shape_product_nonneg.
  induction shape as [|d shape IH]; [constructor|].
  destruct (decide (0 ≤ d)).
  - rewrite filter_cons_True by done. by constructor.
  - by rewrite filter_cons_False.
Qed.

(** Whatever shape it is asked for, [reshape] returns a well-formed array. *)
Lemma ndarray_reshape_any_wf (a b : ndarray) (newshape : list Z) :
  ndarray_wf a → ndarray_reshape a newshape = Ok b →
  ndarray_wf b ∧ (unknown_count newshape ≤ 1)%nat
  ∧ length (nd_shape b) = length newshape.
Proof.
  intros (Hpos & _ & Hlen). unfold ndarray_reshape.
  case_decide as Hrank; [done|].
  destruct (unknown_count newshape) as [|[|k]] eqn:Hk; [| |done].
  - case_decide as Hsize; [|done]. intros [= <-].
    destruct (inferred_shape_none 0 newshape Hk) as (_ & _ & Hall).
    split; [|split; [lia|done]].
    repeat split; [done | simpl; lia |]. unfold nd_size. simpl. by rewrite Hsize.
  - case_decide as Hbad; [done|]. intros [= <-].
    assert (Hsz : 0 ≤ nd_size a) by by apply shape_product_nonneg.
    pose proof (known_product_nonneg newshape) as Hk0.
    assert (Hq : 0 ≤ nd_size a / known_product newshape)
      by (apply Z.div_pos; lia).
    destruct (inferred_shape_one _ newshape Hk Hq) as [Hprod Hall].
    split; [|split; [lia | simpl; by rewrite length_map]].
    repeat split; [done | simpl; rewrite length_map; lia |].
    match goal with
    | |- context [nd_size (mk_ndarray ?sh ?dt ?bs)] =>
        change (nd_size (mk_ndarray sh dt bs)) with (shape_product sh)
    end.
    cbn [nd_data nd_dtype]. rewrite Hprod, Hlen.
    f_equal.
    destruct (decide (nd_size a `mod` known_product newshape = 0)) as [Hm|Hm]; [|tauto].
    pose proof (Z.div_mod (nd_size a) (known_product newshape)). lia.
Qed.

(** X4: whatever byte string and shape it is given, when [deserialize_numpy]
    returns an array, the array is well formed over exactly the given bytes
    (8 bytes for each of its items), has the native float dtype and as many
    dimensions as the shape has entries; the shape had at most one negative
    entry, and [serialize_numpy] of the array gives the byte string back. *)
Theorem deserialize_numpy_result (native native' : byteorder)
    (serialized : list byte) (shape : list Z) (b : ndarray) :
  deserialize_numpy native serialized shape = Ok b →
  ndarray_wf b
  ∧ Z.of_nat (length serialized) = 8 * nd_size b
  ∧ nd_dtype b = np_dtype_float native
  ∧ length (nd_shape b) = length shape
  ∧ (unknown_count shape ≤ 1)%nat
  ∧ (unknown_count shape = 0%nat → nd_shape b = shape)
  ∧ serialize_numpy native' b = (serialized, nd_shape b).
Proof.
  intros Hb. pose proof (deserialize_numpy_native _ _ _ _ Hb) as [Hdt Hdata].
  revert Hb. unfold deserialize_numpy. cbn zeta.
  destruct (frombuffer serialized (np_dtype_float native)) as [a|e] eqn:Ha; [|done].
  cbn [result_bind]. intros Hb.
  pose proof (frombuffer_wf _ _ _ Ha) as Hwfa.
  destruct (ndarray_reshape_any_wf a b shape Hwfa Hb) as (Hwf & Hcount & Hrank).
  split; [done|]. split.
  { destruct Hwf as (_ & _ & Hlen). rewrite Hdata, Hdt in Hlen. exact Hlen. }
  split; [done|]. split; [done|]. split; [done|]. split.
  - intros Hnone. revert Hb. unfold ndarray_reshape.
    case_decide; [done|]. rewrite Hnone. case_decide; [|done]. by intros [= <-].
  - rewrite serialize_numpy_bytes. by rewrite Hdata.
Qed.

Lemma deserialize_numpy_result_witness :
  ndarray_wf two_array
  ∧ Z.of_nat (length (nd_data two_array)) = 8 * nd_size two_array
  ∧ nd_dtype two_array = np_dtype_float LittleEndian
  ∧ length (nd_shape two_array) = length ([-1] : list Z)
  ∧ (unknown_count [(-1)%Z] ≤ 1)%nat
  ∧ (unknown_count [-1] = 0%nat → nd_shape two_array = [-1])
  ∧ serialize_numpy BigEndian two_array = (nd_data two_array, nd_shape two_array).
Proof.
  apply (deserialize_numpy_result LittleEndian BigEndian (nd_data two_array) [-1]
           two_array).
  reflexivity.
Defined.

(** X5: for a shape of non-negative dimensions (at most [NPY_MAXDIMS] of
    them) that a float array can have (8 bytes times its dimensions that are
    not zero fit in [npy_intp]), [deserialize_numpy] returns an array when
    the byte string has 8 bytes for each item of the shape; and whenever it
    returns an array, the byte string has 8 bytes for each item of the shape
    and the array is the float array of that shape over those bytes.  This
    includes the empty byte string with a shape that has a zero
    dimension. *)
Theorem deserialize_numpy_succeeds_iff (native : byteorder)
    (serialized : list byte) (shape : list Z) :
  Forall (λ d, 0 ≤ d) shape →
  (length shape ≤ NPY_MAXDIMS)%nat →
  (Z.of_nat (length serialized) = 8 * shape_product shape →
   shape_fits 8 shape →
   deserialize_numpy native serialized shape
   = Ok (mk_ndarray shape (np_dtype_float native) serialized))
  ∧ (∀ b, deserialize_numpy native serialized shape = Ok b →
          Z.of_nat (length serialized) = 8 * shape_product shape
          ∧ b = mk_ndarray shape (np_dtype_float native) serialized).
Proof.
  intros Hpos Hrank. split.
  - intros Hlen _. destruct (multiple_of_8 _ _ Hlen) as [Hmod Hdiv].
    unfold deserialize_numpy. cbn zeta.
    rewrite frombuffer_float by done. cbn [result_bind].
    rewrite ndarray_reshape_nonneg by done.
    rewrite decide_True; [done|].
    unfold nd_size. cbn [nd_shape shape_product fold_right]. lia.
  - intros b. unfold deserialize_numpy. cbn zeta.
    destruct (decide ((length serialized mod 8)%nat = 0%nat)) as [Hmod|Hmod].
    + rewrite frombuffer_float by done. cbn [result_bind].
      rewrite ndarray_reshape_nonneg by done.
      case_decide as Hsize; [|done]. intros [= <-]. split; [|done].
      unfold nd_size in Hsize. cbn [nd_shape shape_product fold_right] in Hsize.
      pose proof (Nat.div_mod_eq (length serialized) 8). lia.
    + unfold frombuffer. cbn [np_dtype_float dt_itemsize].
      rewrite decide_False by lia. by rewrite decide_False.
Qed.

Lemma deserialize_numpy_succeeds_iff_witness :
  (Z.of_nat (length (@nil byte)) = 8 * shape_product [3; 0] →
   shape_fits 8 [3; 0] →
   deserialize_numpy LittleEndian [] [3; 0]
   = Ok (mk_ndarray [3; 0] (np_dtype_float LittleEndian) []))
  ∧ (∀ b, deserialize_numpy LittleEndian [] [3; 0] = Ok b →
          Z.of_nat (length (@nil byte)) = 8 * shape_product [3; 0]
          ∧ b = mk_ndarray [3; 0] (np_dtype_float LittleEndian) []).
Proof.
  apply (deserialize_numpy_succeeds_iff LittleEndian [] [3; 0]).
  - repeat constructor; lia.
  - unfold NPY_MAXDIMS. simpl. lia.
Defined.

(** ** The scoped helpers: failures on entry and on exit *)

(** The error of a failed [os.chdir] or [shutil.rmtree] is decided at the
    first obstacle on the way. *)
Lemma path_error_stops (tree : gmap path node) (seen mid rest : list string) :
  (∀ i, (i < length mid)%nat → tree !! (seen ++ take i mid) = Some Dir) →
  tree !! (seen ++ mid) ≠ Some Dir →
  path_error tree seen (mid ++ rest) = obstacle_error tree (seen ++ mid).
Proof.
  unfold obstacle_error. revert seen.
  induction mid as [|c mid IH]; intros seen Hbefore Hstop.
  - rewrite app_nil_r in *. simpl.
    destruct rest; simpl; unfold path in *; by destruct (tree !! seen) as [[]|].
  - simpl. unfold path in *. pose proof (Hbefore 0%nat ltac:(simpl; lia)) as Hseen.
    simpl in Hseen. rewrite app_nil_r in Hseen. rewrite Hseen.
    rewrite (IH (seen ++ [c])).
    + by rewrite <- app_assoc.
    + intros i Hi. rewrite <- app_assoc. apply (Hbefore (S i)). simpl. lia.
    + by rewrite <- app_assoc.
Qed.

Lemma path_error_first_obstacle (tree : gmap path node) (p q : path) :
  first_obstacle tree p q → path_error tree [] p = obstacle_error tree q.
Proof.
  intros ([rest ->] & Hstop & Hbefore).
  apply (path_error_stops tree [] q rest); [|done].
  intros i Hi. simpl. apply Hbefore.
  - apply prefix_take.
  - intros Heq. apply (f_equal length) in Heq. rewrite length_take in Heq. lia.
Qed.

Lemma chdir_obstacle (p q : path) (s : os_state) :
  fs s !! p ≠ Some Dir → first_obstacle (fs s) p q →
  chdir p s = (Raise (obstacle_error (fs s) q), s).
Proof.
  intros Hp Hq. unfold chdir. rewrite (path_error_first_obstacle _ _ _ Hq).
  by destruct (fs s !! p) as [[]|].
Qed.

Lemma rmtree_obstacle (p q : path) (s : os_state) :
  fs s !! p ≠ Some Dir → first_obstacle (fs s) p q →
  rmtree p s = (Raise (obstacle_error (fs s) q), s).
Proof.
  intros Hp Hq. unfold rmtree. rewrite (path_error_first_obstacle _ _ _ Hq).
  by destruct (fs s !! p) as [[]|].
Qed.

(** The obstacle on a given path: the prefix of [k] components, when the
    shorter ones are directories and it is not. *)
Lemma first_obstacle_take (tree : gmap path node) (p : path) (k : nat) :
  Forall (λ i, tree !! take i p = Some Dir) (seq 0 k) →
  tree !! take k p ≠ Some Dir →
  first_obstacle tree p (take k p).
Proof.
  intros Hbefore Hstop. split; [apply prefix_take|]. split; [done|].
  intros q' [rest Hq'] Hne.
  assert (Hlen : (length q' < k)%nat).
  { assert (length q' < length (take k p))%nat.
    { destruct rest as [|r rest].
      - rewrite app_nil_r in Hq'. congruence.
      - rewrite Hq', length_app. simpl. lia. }
    rewrite length_take in *. lia. }
  assert (Heq : q' = take (length q') p).
  { apply (f_equal (take (length q'))) in Hq'.
    rewrite take_take, take_app_length in Hq'.
    by rewrite Nat.min_l in Hq' by lia. }
  rewrite Heq. apply (proj1 (Forall_forall _ _) Hbefore), elem_of_seq. lia.
Qed.



(** Below a regular file the error is [NotADirectoryError]; where nothing
    is, [FileNotFoundError]. *)
Example temporary_cd_below_file :
  temporary_cd (parse_pathname "/site-packages/openforcefield/data/water.pdb/sub")
    body_pass os_installed
  = (Raise NotADirectoryError, os_installed)
  ∧ temporary_cd (parse_pathname "nowhere") body_pass os_home
    = (Raise FileNotFoundError, os_home).
Proof. split; reflexivity. Qed.

(** X7: when the directory that was current before the scope is no longer a
    directory at exit, the scope raises the error of the restoring
    [os.chdir], which the first component on the way to that directory that
    is not a directory decides: [NotADirectoryError] when a regular file
    stands there, [FileNotFoundError] when nothing does.  That error
    replaces the outcome of the body, also an exception the body raised, and
    the process stays in the state the body left. *)
Theorem temporary_cd_restore_error (dir_path : pathname) (body : os_action unit)
    (s : os_state) (target : path) (r : result unit) (s2 : os_state) (q : path) :
  fs s !! cwd s = Some Dir →
  abspath dir_path s = (Ok target, s) →
  fs s !! target = Some Dir →
  body (mk_os_state target (fs s)) = (r, s2) →
  fs s2 !! cwd s ≠ Some Dir →
  first_obstacle (fs s2) (cwd s) q →
  temporary_cd dir_path body s
  = (Raise (match fs s2 !! q with
            | Some File => NotADirectoryError
            | _ => FileNotFoundError
            end), s2).
Proof.
  intros Hcwd Habs Htarget Hbody Hgone Hq.
  rewrite (temporary_cd_entered _ _ _ target) by done.
  unfold try_finally. rewrite Hbody.
  by rewrite (chdir_obstacle (cwd s) q).
Qed.

Lemma temporary_cd_restore_error_witness :
  temporary_cd (parse_pathname "/tmp") body_replace_home os_user
  = (Raise (match fs (body_replace_home (mk_os_state ["tmp"] (fs os_user))).2
                    !! ["home"] with
            | Some File => NotADirectoryError
            | _ => FileNotFoundError
            end),
     (body_replace_home (mk_os_state ["tmp"] (fs os_user))).2).
Proof.
  apply (temporary_cd_restore_error (parse_pathname "/tmp") body_replace_home
           os_user ["tmp"] (Raise (OtherError "RuntimeError"))
           (body_replace_home (mk_os_state ["tmp"] (fs os_user))).2 ["home"]).
  - reflexivity.
  - reflexivity.
  - reflexivity.
  - reflexivity.
  - vm_compute. discriminate.
  - apply (first_obstacle_take _ ["home"; "user"] 1).
    + repeat constructor.
    + vm_compute. discriminate.
Defined.

(** The directory to return to lies below what is now a regular file:
    [NotADirectoryError], and the [RuntimeError] of the body is lost. *)
Example temporary_cd_restore_below_file :
  (temporary_cd (parse_pathname "/tmp") body_replace_home os_user).1
  = Raise NotADirectoryError.
Proof. reflexivity. Qed.

(** X8: scopes nest.  With a second [temporary_cd] as the body of a first,
    the second path is resolved from inside the first directory, the inner
    body runs in the second directory, and when both directories to return
    to are still there at exit the process is back where it started, with
    the outcome of the inner body. *)
Theorem temporary_cd_nested (outer inner : pathname) (body : os_action unit)
    (s : os_state) (t1 t2 : path) (r : result unit) (s3 : os_state) :
  fs s !! cwd s = Some Dir →
  abspath outer s = (Ok t1, s) →
  fs s !! t1 = Some Dir →
  abspath inner (mk_os_state t1 (fs s)) = (Ok t2, mk_os_state t1 (fs s)) →
  fs s !! t2 = Some Dir →
  body (mk_os_state t2 (fs s)) = (r, s3) →
  fs s3 !! t1 = Some Dir →
  fs s3 !! cwd s = Some Dir →
  temporary_cd outer (temporary_cd inner body) s
  = (r, mk_os_state (cwd s) (fs s3)).
Proof.
  intros Hcwd Hout Ht1 Hin Ht2 Hbody Hback1 Hback.
  rewrite (temporary_cd_entered _ _ _ t1) by done.
  unfold try_finally.
  rewrite (temporary_cd_entered inner body (mk_os_state t1 (fs s)) t2) by done.
  unfold try_finally. cbn [cwd fs]. rewrite Hbody.
  rewrite (chdir_dir t1 s3) by done.
  by rewrite chdir_dir.
Qed.

Lemma temporary_cd_nested_witness :
  temporary_cd (parse_pathname "/tmp") (temporary_cd (parse_pathname "../home") body_raise)
    os_home
  = (Raise (OtherError "RuntimeError"), mk_os_state (cwd os_home) (fs os_home)).
Proof.
  apply (temporary_cd_nested (parse_pathname "/tmp") (parse_pathname "../home")
           body_raise os_home ["tmp"] ["home"] (Raise (OtherError "RuntimeError"))
           (mk_os_state ["home"] (fs os_home)));
    reflexivity.
Defined.

(** X9: when no temporary directory can be made (the temporary root is not a
    directory, or every candidate name is taken), [temporary_directory]
    raises on entry; the body is not run and nothing is created. *)
Theorem temporary_directory_not_created (tmproot : path) (candidates : list string)
    (s : os_state) :
  fs s !! tmproot ≠ Some Dir
  ∨ Forall (λ n, is_Some (fs s !! (tmproot ++ [n]))) candidates →
  ∃ e, ∀ body, temporary_directory tmproot candidates body s = (Raise e, s).
Proof.
  intros Hfail.
  assert (Hmk : ∃ e, mkdtemp tmproot candidates s = (Raise e, s)).
  { unfold mkdtemp. destruct (fs s !! tmproot) as [[]|] eqn:Hroot; [|by eexists..].
    destruct Hfail as [Hroot'|Htaken]; [done|].
    destruct (list_find _ candidates) as [[i n]|] eqn:Hfind; [|by eexists].
    apply list_find_Some in Hfind as (Hi & Hfree & _).
    apply (proj1 (Forall_lookup _ _) Htaken i n) in Hi as [x Hx]. congruence. }
  destruct Hmk as [e He]. exists e. intros body.
  unfold temporary_directory, os_bind. by rewrite He.
Qed.

Lemma temporary_directory_not_created_witness :
  ∃ e, ∀ body, temporary_directory ["tmp"] ["home"] body
                 (mk_os_state [] {[ [] := Dir; ["tmp"] := Dir; ["tmp"; "home"] := File ]})
               = (Raise e,
                  mk_os_state [] {[ [] := Dir; ["tmp"] := Dir; ["tmp"; "home"] := File ]}).
Proof.
  apply (temporary_directory_not_created ["tmp"] ["home"]).
  right. constructor; [|constructor]. exists File. reflexivity.
Defined.

(** X10: when at exit the yielded path is no longer a directory (the body
    has removed it, or put a regular file in its place or in the place of a
    directory above it), the scope raises the error of [shutil.rmtree],
    which the first component on the way that is not a directory decides:
    [NotADirectoryError] when a regular file stands there,
    [FileNotFoundError] when nothing does.  It replaces the outcome of the
    body and the file system stays as the body left it. *)
Theorem temporary_directory_cleanup_error (tmproot : path)
    (candidates : list string) (body : path → os_action unit)
    (s s1 : os_state) (tmp : path) (r : result unit) (s2 : os_state) (q : path) :
  mkdtemp tmproot candidates s = (Ok tmp, s1) →
  body tmp s1 = (r, s2) →
  fs s2 !! tmp ≠ Some Dir →
  first_obstacle (fs s2) tmp q →
  temporary_directory tmproot candidates body s
  = (Raise (match fs s2 !! q with
            | Some File => NotADirectoryError
            | _ => FileNotFoundError
            end), s2).
Proof.
  intros Hmk Hbody Hgone Hq. unfold temporary_directory, os_bind. rewrite Hmk.
  unfold try_finally. rewrite Hbody.
  by rewrite (rmtree_obstacle tmp q).
Qed.

Lemma temporary_directory_cleanup_error_witness :
  temporary_directory ["tmp"] ["tmpa1b2c3"] body_replace_tmproot os_home
  = (Raise (match fs (body_replace_tmproot ["tmp"; "tmpa1b2c3"]
                        (mkdtemp ["tmp"] ["tmpa1b2c3"] os_home).2).2
                  !! ["tmp"] with
            | Some File => NotADirectoryError
            | _ => FileNotFoundError
            end),
     (body_replace_tmproot ["tmp"; "tmpa1b2c3"]
        (mkdtemp ["tmp"] ["tmpa1b2c3"] os_home).2).2).
Proof.
  apply (temporary_directory_cleanup_error ["tmp"] ["tmpa1b2c3"]
           body_replace_tmproot os_home
           (mkdtemp ["tmp"] ["tmpa1b2c3"] os_home).2 ["tmp"; "tmpa1b2c3"] (Ok ())
           (body_replace_tmproot ["tmp"; "tmpa1b2c3"]
              (mkdtemp ["tmp"] ["tmpa1b2c3"] os_home).2).2 ["tmp"]).
  - reflexivity.
  - reflexivity.
  - vm_compute. discriminate.
  - apply (first_obstacle_take _ ["tmp"; "tmpa1b2c3"] 1).
    + repeat constructor.
    + vm_compute. discriminate.
Defined.

(** The body removed the directory: [FileNotFoundError]; the body replaced
    the temporary root by a regular file: [NotADirectoryError]. *)
Example temporary_directory_cleanup_errors :
  (temporary_directory ["tmp"] ["tmpa1b2c3"] body_rmdir os_home).1
  = Raise FileNotFoundError
  ∧ (temporary_directory ["tmp"] ["tmpa1b2c3"] body_replace_tmproot os_home).1
    = Raise NotADirectoryError.
Proof. split; reflexivity. Qed.

(** ** The scoped helpers: what a scope leaves behind *)

(** In a tree, nothing lies below a path that does not exist. *)
Lemma fs_tree_nothing_below (tree : gmap path node) (p q : path) :
  fs_tree tree → tree !! p = None → p `prefix_of` q → tree !! q = None.
Proof.
  intros Htree Hp [rest ->]. induction rest as [|n rest IH] using rev_ind.
  - by rewrite app_nil_r.
  - destruct (tree !! (p ++ rest ++ [n])) as [x|] eqn:Hq; [|done].
    rewrite app_assoc in Hq.
    assert (Hparent : tree !! (p ++ rest) = Some Dir)
      by (apply (Htree (p ++ rest) n); by eexists).
    exfalso. unfold path in *. by rewrite IH in Hparent.
Qed.

(** X11: a scope whose body works inside the temporary directory only leaves
    no trace.  On a file system that is a tree, when the body changes
    nothing outside the yielded directory, stays in the working directory and
    leaves the directory in place, then after the scope, the body having
    returned or raised, the process is in exactly the state it was in before
    the scope. *)
Theorem temporary_directory_no_trace (tmproot : path) (candidates : list string)
    (body : path → os_action unit) (s s1 : os_state) (tmp : path)
    (r : result unit) (s2 : os_state) :
  fs_tree (fs s) →
  mkdtemp tmproot candidates s = (Ok tmp, s1) →
  body tmp s1 = (r, s2) →
  cwd s2 = cwd s1 →
  fs s2 !! tmp = Some Dir →
  (∀ q, ¬ tmp `prefix_of` q → fs s2 !! q = fs s1 !! q) →
  temporary_directory tmproot candidates body s = (r, s).
Proof.
  intros Htree Hmk Hbody Hcwd Hdir Hframe.
  destruct (mkdtemp_fresh _ _ _ _ _ Hmk) as (Hfresh & -> & _).
  unfold temporary_directory, os_bind. rewrite Hmk.
  unfold try_finally. rewrite Hbody. rewrite rmtree_dir by done.
  f_equal. destruct s as [here tree]. cbn [cwd fs] in *. rewrite Hcwd. f_equal.
  apply map_eq. intros q.
  destruct (decide (tmp `prefix_of` q)) as [Hq|Hq].
  - rewrite rmtree_removes_below by done. symmetry.
    by apply (fs_tree_nothing_below tree tmp q).
  - rewrite rmtree_keeps_others by done. rewrite Hframe by done.
    apply lookup_insert_ne. intros <-. by apply Hq.
Qed.

Lemma os_home_tree : fs_tree (fs os_home).
Proof.
  intros q n [x Hx]. cbn [fs os_home] in *.
  destruct q as [|c q]; [reflexivity|]. exfalso.
  rewrite !lookup_insert_ne in Hx by (by destruct q).
  rewrite lookup_singleton_ne in Hx by (by destruct q). done.
Qed.

Lemma temporary_directory_no_trace_witness :
  temporary_directory ["tmp"] ["tmpa1b2c3"] body_write_and_raise os_home
  = (Raise (OtherError "RuntimeError"), os_home).
Proof.
  apply (temporary_directory_no_trace ["tmp"] ["tmpa1b2c3"] body_write_and_raise
           os_home (mkdtemp ["tmp"] ["tmpa1b2c3"] os_home).2 ["tmp"; "tmpa1b2c3"]
           (Raise (OtherError "RuntimeError"))
           (body_write_and_raise ["tmp"; "tmpa1b2c3"]
              (mkdtemp ["tmp"] ["tmpa1b2c3"] os_home).2).2).
  - apply os_home_tree.
  - reflexivity.
  - reflexivity.
  - reflexivity.
  - reflexivity.
  - intros q Hq. cbn.
    rewrite lookup_insert_ne by (intros <-; apply Hq; by exists ["a.txt"]).
    apply lookup_insert_ne. intros <-. apply Hq. by exists ["b.txt"].
Defined.

Lemma normpath_go_plain (seen parts : list string) :
  Forall plain_component parts →
  normpath_go seen parts = rev seen ++ parts.
Proof.
  intros Hplain. revert seen.
  induction Hplain as [|c parts (H1 & H2 & H3) _ IH]; intros seen.
  - simpl. by rewrite app_nil_r.
  - cbn [normpath_go]. rewrite decide_False by tauto. rewrite decide_False by done.
    rewrite IH. cbn [rev]. by rewrite <- app_assoc.
Qed.

Lemma abspath_pathname_of (p : path) (s : os_state) :
  Forall plain_component p → abspath (pathname_of p) s = (Ok p, s).
Proof.
  intros Hplain. unfold abspath, pathname_of, os_ret, normpath. cbn [pn_absolute pn_parts].
  by rewrite normpath_go_plain.
Qed.

(** X12: the two scopes together,
    [with temporary_directory() as tmp_dir: with temporary_cd(tmp_dir): body].
    The body runs inside the new directory; when at its end the new
    directory and the directory the process came from are still there, then
    after the scopes the process is back in the directory it came from, the
    new directory is gone with everything below it, what the body did
    elsewhere stays, and the outcome is the outcome of the body. *)
Theorem temporary_directory_cd (tmproot : path) (candidates : list string)
    (body : os_action unit) (s s1 : os_state) (tmp : path)
    (r : result unit) (s2 : os_state) :
  fs s !! cwd s = Some Dir →
  mkdtemp tmproot candidates s = (Ok tmp, s1) →
  Forall plain_component tmp →
  body (mk_os_state tmp (fs s1)) = (r, s2) →
  fs s2 !! cwd s = Some Dir →
  fs s2 !! tmp = Some Dir →
  ∃ s3, temporary_directory tmproot candidates
          (λ tmp_dir, temporary_cd (pathname_of tmp_dir) body) s = (r, s3)
        ∧ cwd s3 = cwd s
        ∧ ∀ q, fs s3 !! q = if decide (tmp `prefix_of` q) then None else fs s2 !! q.
Proof.
  intros Hcwd Hmk Hplain Hbody Hback Hdir.
  destruct (mkdtemp_fresh _ _ _ _ _ Hmk) as (Hfresh & Hs1 & _).
  assert (Hcwd1 : cwd s1 = cwd s) by (by rewrite Hs1).
  assert (Htmp1 : fs s1 !! tmp = Some Dir) by (rewrite Hs1; apply lookup_insert_eq).
  assert (Hhere1 : fs s1 !! cwd s1 = Some Dir).
  { rewrite Hs1. cbn [cwd fs]. rewrite lookup_insert_ne; [done|]. congruence. }
  unfold temporary_directory, os_bind. rewrite Hmk. unfold try_finally.
  rewrite (temporary_cd_entered _ _ _ tmp) by (done || by apply abspath_pathname_of).
  unfold try_finally. rewrite Hbody. rewrite Hcwd1.
  rewrite (chdir_dir (cwd s) s2) by done.
  rewrite rmtree_dir by done. cbn [cwd fs].
  eexists. split; [done|]. split; [done|]. intros q. cbn [fs].
  case_decide.
  - by apply rmtree_removes_below.
  - by apply rmtree_keeps_others.
Qed.

Lemma temporary_directory_cd_witness :
  ∃ s3, temporary_directory ["tmp"] ["tmpa1b2c3"]
          (λ tmp_dir, temporary_cd (pathname_of tmp_dir) body_raise) os_home
        = (Raise (OtherError "RuntimeError"), s3)
        ∧ cwd s3 = cwd os_home
        ∧ ∀ q, fs s3 !! q
               = if decide (["tmp"; "tmpa1b2c3"] `prefix_of` q) then None
                 else fs (mkdtemp ["tmp"] ["tmpa1b2c3"] os_home).2 !! q.
Proof.
  apply (temporary_directory_cd ["tmp"] ["tmpa1b2c3"] body_raise os_home
           (mkdtemp ["tmp"] ["tmpa1b2c3"] os_home).2 ["tmp"; "tmpa1b2c3"]
           (Raise (OtherError "RuntimeError"))
           (mk_os_state ["tmp"; "tmpa1b2c3"]
              (fs (mkdtemp ["tmp"] ["tmpa1b2c3"] os_home).2))).
  - reflexivity.
  - reflexivity.
  - repeat constructor; by vm_compute.
  - reflexivity.
  - reflexivity.
  - reflexivity.
Defined.

(** ** Docstring inheritance: what is written and what is not *)

Lemma inherit_docstrings_fold (classes : gmap cid pyclass) (cls : cid)
    (docs : gmap loc (option string)) :
  inherit_docstrings classes cls docs
  = fold_left (inherit_member classes cls) (getmembers_isfunction classes cls) docs.
Proof.
  unfold inherit_docstrings. generalize (getmembers_isfunction classes cls).
  intros members. revert docs.
  induction members as [|[name func] members IH]; intros docs0; [done|].
  cbn [fold_left]. by rewrite IH.
Qed.

(** A turn of the loop writes the function object of its member and no
    other. *)
Lemma inherit_member_other (classes : gmap cid pyclass) (cls : cid)
    (docs : gmap loc (option string)) (name : string) (func g : loc) :
  g ≠ func →
  func_doc (inherit_member classes cls docs (name, func)) g = func_doc docs g.
Proof.
  intros Hg. unfold inherit_member.
  destruct (doc_truthy (func_doc docs func)); [done|].
  by apply inherit_from_parents_other.
Qed.

Lemma inherit_members_other (classes : gmap cid pyclass) (cls : cid)
    (members : list (string * loc)) (docs : gmap loc (option string)) (g : loc) :
  (∀ name, (name, g) ∉ members) →
  func_doc (fold_left (inherit_member classes cls) members docs) g = func_doc docs g.
Proof.
  revert docs. induction members as [|[name func] members IH]; intros docs0 Hg; [done|].
  cbn [fold_left]. rewrite IH.
  - apply inherit_member_other. intros ->. apply (Hg name). by left.
  - intros name' Hin. apply (Hg name'). by right.
Qed.

(** The names [dir] lists are pairwise different, and so are the members. *)
Lemma class_dir_NoDup (classes : gmap cid pyclass) (c : cid) :
  NoDup (class_dir classes c).
Proof.
  unfold class_dir. destruct (classes !! c) as [k|]; [|constructor].
  rewrite merge_sort_Permutation. apply NoDup_elements.
Qed.

Lemma getmembers_isfunction_name (classes : gmap cid pyclass) (c : cid)
    (name : string) (f : loc) :
  (name, f) ∈ getmembers_isfunction classes c →
  class_getattr classes c name = Some (Function f).
Proof.
  unfold getmembers_isfunction. intros Hin.
  apply list_elem_of_omap in Hin as (name' & _ & Hsome).
  destruct (class_getattr classes c name') as [[g|g|d|d1 d2]|] eqn:Hget; [|done..].
  by injection Hsome as -> ->.
Qed.

Lemma getmembers_isfunction_split (classes : gmap cid pyclass) (c : cid)
    (name : string) (f : loc) :
  (name, f) ∈ getmembers_isfunction classes c →
  ∃ m1 m2, getmembers_isfunction classes c = m1 ++ (name, f) :: m2
           ∧ (∀ g, (name, g) ∉ m1) ∧ (∀ g, (name, g) ∉ m2).
Proof.
  unfold getmembers_isfunction.
  pose proof (class_dir_NoDup classes c) as Hnodup. revert Hnodup.
  generalize (class_dir classes c). intros names Hnodup Hin.
  induction Hnodup as [|n names Hn Hnodup IH]; [by apply elem_of_nil in Hin|].
  cbn [omap list_omap] in *.
  assert (Hrest : ∀ g, (n, g) ∉ omap (λ name0, match class_getattr classes c name0 with
                                               | Some (Function f0) => Some (name0, f0)
                                               | _ => None
                                               end) names).
  { intros g Hg. apply list_elem_of_omap in Hg as (n' & Hn' & Hsome).
    destruct (class_getattr classes c n') as [[g'|g'|d|d1 d2]|]; [|done..].
    injection Hsome as -> ->. done. }
  destruct (class_getattr classes c n) as [[g|g|d|d1 d2]|] eqn:Hget; [|by apply IH..].
  - apply elem_of_cons in Hin as [[= -> ->]|Hin].
    + exists [], (omap (λ name0, match class_getattr classes c name0 with
                                 | Some (Function f0) => Some (name0, f0)
                                 | _ => None
                                 end) names).
      split; [done|]. split; [|done]. intros g' Hg'. by apply elem_of_nil in Hg'.
    + destruct (IH Hin) as (m1 & m2 & Heq & H1 & H2).
      exists ((n, g) :: m1), m2. rewrite Heq. split; [done|]. split; [|done].
      intros g' Hg'. apply elem_of_cons in Hg' as [[= <- <-]|Hg'].
      * apply (Hrest f). rewrite Heq. apply elem_of_app. right. by left.
      * by apply (H1 g').
Qed.

(** X13: the last ancestor decides.  For a function member [(name, func)] of
    a class, bound under that one name and without a docstring: when [p] is
    the last class of [cls.__mro__[1:]] for which [hasattr(p, name)] holds
    (an attribute of the metaclass of [p] counts, as [getattr] on a class
    finds it), and what [getattr(p, name)] gives is neither a function
    member of [cls] nor a method made from one, then after
    [inherit_docstrings(cls)] the docstring of [func] is the docstring
    [getattr(p, name)] had, be it [None]; the ancestors before [p] do not
    count. *)
Theorem inherit_docstrings_last_ancestor (classes : gmap cid pyclass) (cls : cid)
    (docs : gmap loc (option string)) (name : string) (func : loc)
    (before : list cid) (p : cid) (after : list cid) (v : attr) :
  (name, func) ∈ getmembers_isfunction classes cls →
  (∀ name', (name', func) ∈ getmembers_isfunction classes cls → name' = name) →
  doc_truthy (func_doc docs func) = false →
  tail (default [] (cls_mro <$> classes !! cls)) = before ++ p :: after →
  class_getattr classes p name = Some v →
  Forall (λ q, class_getattr classes q name = None) after →
  (∀ g, v = Function g ∨ v = Method g →
        ∀ name', (name', g) ∉ getmembers_isfunction classes cls) →
  func_doc (inherit_docstrings classes cls docs) func = attr_doc docs v.
Proof.
  intros Hmember Honce Hnodoc Hmro Hp Hafter Hv.
  rewrite inherit_docstrings_fold.
  destruct (getmembers_isfunction_split _ _ _ _ Hmember) as (m1 & m2 & Heq & H1 & H2).
  assert (Hfunc : ∀ m : list (string * loc), (∀ g, (name, g) ∉ m) →
                       (∀ x, x ∈ m → x ∈ getmembers_isfunction classes cls) →
                       ∀ name', (name', func) ∉ m).
  { intros m Hm Hsub name' Hin. rewrite (Honce name') in Hin by by apply Hsub.
    by apply (Hm func). }
  assert (Hsub1 : ∀ x, x ∈ m1 → x ∈ getmembers_isfunction classes cls)
    by (intros x Hx; rewrite Heq; apply elem_of_app; by left).
  assert (Hsub2 : ∀ x, x ∈ m2 → x ∈ getmembers_isfunction classes cls)
    by (intros x Hx; rewrite Heq; apply elem_of_app; right; by right).
  rewrite Heq, fold_left_app. cbn [fold_left].
  rewrite inherit_members_other by by apply Hfunc.
  set (docs1 := fold_left (inherit_member classes cls) m1 docs).
  assert (Hsame : func_doc docs1 func = func_doc docs func)
    by (apply inherit_members_other; by apply Hfunc).
  assert (Hattr : attr_doc docs1 v = attr_doc docs v).
  { destruct v as [g|g|d|d1 d2]; [| |done..]; simpl; apply inherit_members_other;
      intros name' Hin; apply (Hv g (ltac:(auto)) name'); by apply Hsub1. }
  unfold inherit_member. rewrite Hsame, Hnodoc, Hmro.
  rewrite (inherit_from_parents_last _ _ _ _ _ _ _ v); [done..| |done].
  intros g Hg ->. apply (Hv func Hg name Hmember).
Qed.

Lemma inherit_docstrings_last_ancestor_witness :
  func_doc (inherit_docstrings chain_classes "C" chain_docs) 3%nat
  = attr_doc chain_docs (Function 1%nat).
Proof.
  apply (inherit_docstrings_last_ancestor chain_classes "C" chain_docs "foo" 3%nat
           ["B"] "A" ["object"] (Function 1%nat)).
  - vm_compute. by left.
  - intros name' Hin. vm_compute in Hin.
    apply list_elem_of_singleton in Hin. by injection Hin as ->.
  - reflexivity.
  - reflexivity.
  - reflexivity.
  - repeat constructor.
  - intros g [[= <-]|[=]] name' Hin. vm_compute in Hin.
    apply list_elem_of_singleton in Hin. discriminate.
Defined.

(** X14: [inherit_docstrings] writes nothing but the docstrings of the
    function members of the class that have none: a function object that is
    no member of the class, or whose docstring is not empty, has the same
    docstring after the call. *)
Theorem inherit_docstrings_frame (classes : gmap cid pyclass) (cls : cid)
    (docs : gmap loc (option string)) (f : loc) :
  (∀ name, (name, f) ∉ getmembers_isfunction classes cls)
  ∨ doc_truthy (func_doc docs f) = true →
  func_doc (inherit_docstrings classes cls docs) f = func_doc docs f.
Proof.
  intros [Hother|Hdoc].
  - rewrite inherit_docstrings_fold. by apply inherit_members_other.
  - by apply inherit_docstrings_keeps_documented.
Qed.

Lemma inherit_docstrings_frame_witness :
  func_doc (inherit_docstrings chain_classes "C" chain_docs) 2%nat
  = func_doc chain_docs 2%nat.
Proof.
  apply (inherit_docstrings_frame chain_classes "C" chain_docs 2%nat).
  left. intros name Hin. vm_compute in Hin.
  apply list_elem_of_singleton in Hin. discriminate.
Defined.

(** X15: when none of the names of the function members of a class is an
    attribute of an ancestor, [inherit_docstrings] changes nothing. *)
Theorem inherit_docstrings_nothing_to_inherit (classes : gmap cid pyclass)
    (cls : cid) (docs : gmap loc (option string)) :
  (∀ name f, (name, f) ∈ getmembers_isfunction classes cls →
             Forall (λ p, class_getattr classes p name = None)
                    (tail (default [] (cls_mro <$> classes !! cls)))) →
  inherit_docstrings classes cls docs = docs.
Proof.
  rewrite inherit_docstrings_fold.
  generalize (getmembers_isfunction classes cls). intros members.
  induction members as [|[name func] members IH]; intros Hnone; [done|].
  cbn [fold_left].
  assert (Hstep : inherit_member classes cls docs (name, func) = docs).
  { unfold inherit_member. destruct (doc_truthy (func_doc docs func)); [done|].
    apply inherit_from_parents_none. apply (Hnone name func). by left. }
  rewrite Hstep. apply IH. intros name' f Hin. apply (Hnone name' f). by right.
Qed.

Lemma inherit_docstrings_nothing_to_inherit_witness :
  inherit_docstrings chain_classes "A" chain_docs = chain_docs.
Proof.
  apply (inherit_docstrings_nothing_to_inherit chain_classes "A" chain_docs).
  intros name f Hin. vm_compute in Hin.
  apply list_elem_of_singleton in Hin. injection Hin as -> ->.
  repeat constructor.
Defined.

(** A class that overrides one method and adds another: the override takes
    the docstring of the method it overrides, the new method keeps none, and
    the methods of the base class are as they were. *)
Example inherit_docstrings_impl :
  func_doc (inherit_docstrings impl_classes "Impl" impl_docs) 3%nat = Some "Run it."
  ∧ func_doc (inherit_docstrings impl_classes "Impl" impl_docs) 4%nat = None
  ∧ func_doc (inherit_docstrings impl_classes "Impl" impl_docs) 1%nat = Some "Run it."
  ∧ func_doc (inherit_docstrings impl_classes "Impl" impl_docs) 2%nat = None.
Proof. repeat split; by vm_compute. Qed.

(** An attribute of the metaclass counts: [hasattr(object, '__call__')]
    holds, through [type.__call__], so [object] is the last ancestor with a
    [__call__] and its docstring wins over the one of [Greeter.__call__]. *)
Example inherit_docstrings_metaclass_attribute :
  class_getattr call_classes "object" "__call__"
  = Some (Data (Some "Call self as a function."))
  ∧ class_getattr call_classes "object" "mro"
    = Some (Data (Some "Return a type's method resolution order."))
  ∧ class_getattr call_classes "object" "greet" = None
  ∧ getmembers_isfunction call_classes "Loud" = [("__call__", 2%nat)]
  ∧ func_doc (inherit_docstrings call_classes "Loud" call_docs) 2%nat
    = Some "Call self as a function.".
Proof. repeat split; by vm_compute. Qed.

(** ** Subclass enumeration: what is listed, and how often *)

(** X16: in a hierarchy (classes never inherit in a circle) a class is not in
    its own list, and the list of a class contains the whole list of each
    class it lists. *)
Theorem all_subclasses_closed (registry : gmap cid (list cid))
    (metaclasses : gset cid) (height : cid → nat)
    (cls : cid) (fuel : nat) (l : list cid) :
  (∀ c s, direct_subclass registry c s → (height s < height c)%nat) →
  all_subclasses fuel registry metaclasses cls = Some (Ok l) →
  (cls ∉ l)
  ∧ ∀ s fuel' l', s ∈ l →
                  all_subclasses fuel' registry metaclasses s = Some (Ok l') →
                  ∀ x, x ∈ l' → x ∈ l.
Proof.
  intros Hacyclic Hl. split.
  - intros Hin. apply (all_subclasses_members registry metaclasses fuel cls l Hl) in Hin.
    apply (height_tc registry height Hacyclic) in Hin. lia.
  - intros s fuel' l' Hs Hl' x Hx.
    apply (all_subclasses_members registry metaclasses fuel cls l Hl).
    apply (all_subclasses_members registry metaclasses fuel cls l Hl) in Hs.
    apply (all_subclasses_members registry metaclasses fuel' s l' Hl') in Hx.
    by eapply tc_transitive.
Qed.

Lemma all_subclasses_closed_witness :
  ("A" ∉ ["B"; "C"; "D"; "D"])
  ∧ ∀ s fuel' l', s ∈ ["B"; "C"; "D"; "D"] →
                  all_subclasses fuel' diamond ∅ s = Some (Ok l') →
                  ∀ x, x ∈ l' → x ∈ ["B"; "C"; "D"; "D"].
Proof.
  apply (all_subclasses_closed diamond ∅ diamond_height "A" 3%nat ["B"; "C"; "D"; "D"]).
  - unfold direct_subclass, subclasses, diamond. intros c s.
    registry_cases c; simpl; intros Hs; literal_elem; by vm_compute.
  - reflexivity.
Defined.

(** X17: multiple inheritance shows.  When a class [x] is an immediate
    subclass of two different classes that each are [cls] or a subclass of
    [cls], the list for [cls] holds [x] itself at two different positions. *)
Theorem all_subclasses_repeats (registry : gmap cid (list cid))
    (metaclasses : gset cid) (x : cid)
    (fuel : nat) (cls : cid) (l : list cid) (y1 y2 : cid) :
  all_subclasses fuel registry metaclasses cls = Some (Ok l) →
  y1 ≠ y2 →
  rtc (direct_subclass registry) cls y1 →
  rtc (direct_subclass registry) cls y2 →
  direct_subclass registry y1 x →
  direct_subclass registry y2 x →
  ∃ i j : nat, i ≠ j ∧ l !! i = Some x ∧ l !! j = Some x.
Proof. apply all_subclasses_listed_twice. Qed.

Lemma all_subclasses_repeats_witness :
  ∃ i j : nat, i ≠ j ∧ ["B"; "C"; "D"; "D"] !! i = Some "D"
               ∧ ["B"; "C"; "D"; "D"] !! j = Some "D".
Proof.
  apply (all_subclasses_repeats diamond ∅ "D" 3%nat "A" ["B"; "C"; "D"; "D"] "B" "C").
  - reflexivity.
  - discriminate.
  - apply rtc_once. unfold direct_subclass. vm_compute. by left.
  - apply rtc_once. unfold direct_subclass. vm_compute. right. by left.
  - unfold direct_subclass. vm_compute. by left.
  - unfold direct_subclass. vm_compute. by left.
Defined.
